(** * life-coordinates: morph, rotation, gesture and ornament logic

    A shallow embedding of the per-frame and per-event logic of
    [components/Scene.tsx], [components/Foliage.tsx] (with the gesture
    manager that follows it), [components/PhotoOrnaments.tsx] and
    [components/GoldDust.tsx].

    Numbers.  JavaScript numbers and GLSL floats are idealised as real
    numbers: [Math.min] is [Rmin], [Math.abs] is [Rabs], [Math.sqrt] is
    [sqrt], [Math.sin]/[Math.cos] and the GLSL [sin]/[cos] are the real
    [sin]/[cos].  Rounding is not modelled, so every "within epsilon" of
    the informal description is read as an exact equation or bound. *)

From Stdlib Require Import Reals Lra Lia Bool String Arith List.
Import ListNotations.

Local Open Scope R_scope.

(* ================================================================== *)
(** ** Three-component vectors ([THREE.Vector3], GLSL [vec3]) *)

Record vec3 : Type := Vec3 { vx : R; vy : R; vz : R }.

Definition vzero : vec3 := Vec3 0 0 0.

Definition vadd (a b : vec3) : vec3 :=
  Vec3 (vx a + vx b) (vy a + vy b) (vz a + vz b).

Definition vsub (a b : vec3) : vec3 :=
  Vec3 (vx a - vx b) (vy a - vy b) (vz a - vz b).

Definition vscale (a : vec3) (k : R) : vec3 :=
  Vec3 (vx a * k) (vy a * k) (vz a * k).

Definition vlength (a : vec3) : R :=
  sqrt (vx a * vx a + vy a * vy a + vz a * vz a).

Definition vdistance (a b : vec3) : R := vlength (vsub a b).

(** [Vector3.lerp(v, alpha)]: [this.x += (v.x - this.x) * alpha], and the
    same for [y] and [z]. *)
Definition vlerp (this v : vec3) (alpha : R) : vec3 :=
  Vec3 (vx this + (vx v - vx this) * alpha)
       (vy this + (vy v - vy this) * alpha)
       (vz this + (vz v - vz this) * alpha).

(* ================================================================== *)
(** ** [THREE.MathUtils] *)

Module MathUtils.

(** [lerp(x, y, t) = (1 - t) * x + t * y]. *)
Definition lerp (x y t : R) : R := (1 - t) * x + t * y.

(** [smoothstep(x, min, max)]: 0 at or below [min], 1 at or above [max],
    the cubic Hermite polynomial in between. *)
Definition smoothstep (x min max : R) : R :=
  if Rle_dec x min then 0
  else if Rle_dec max x then 1
  else let x' := (x - min) / (max - min) in x' * x' * (3 - 2 * x').

End MathUtils.

(* ================================================================== *)
(** ** GLSL built-ins used by the two vertex shaders *)

Module GLSL.

Definition clamp (x lo hi : R) : R := Rmin (Rmax x lo) hi.

(** [smoothstep(edge0, edge1, x)]: [t = clamp((x - edge0) / (edge1 -
    edge0), 0, 1); t * t * (3 - 2 * t)].  The foliage shader also calls
    it with [edge0 > edge1]; the formula is applied as it stands. *)
Definition smoothstep (edge0 edge1 x : R) : R :=
  let t := clamp ((x - edge0) / (edge1 - edge0)) 0 1 in
  t * t * (3 - 2 * t).

(** [mix(a, b, t) = a * (1 - t) + b * t], here on scalars and vectors. *)
Definition mix (a b t : R) : R := a * (1 - t) + b * t.

Definition vmix (a b : vec3) (t : R) : vec3 :=
  Vec3 (mix (vx a) (vx b) t) (mix (vy a) (vy b) t) (mix (vz a) (vz b) t).

(** [normalize(v) = v / length(v)]. *)
Definition normalize (v : vec3) : vec3 :=
  Vec3 (vx v / vlength v) (vy v / vlength v) (vz v / vlength v).

End GLSL.

(* ================================================================== *)
(** ** [types.ts]: the two morph states *)

Inductive TreeMorphState : Type := TREE_SHAPE | SCATTERED.

Definition TreeMorphState_eqb (a b : TreeMorphState) : bool :=
  match a, b with
  | TREE_SHAPE, TREE_SHAPE | SCATTERED, SCATTERED => true
  | _, _ => false
  end.

(* ================================================================== *)
(** ** [Scene.tsx] *)

Module Scene.

(** The refs of the component: [progressRef], [angularVelocity],
    [lastMouseX], [isDraggingScene], [lastHandX], and the [rotation.y] of
    the group behind [groupRef]. *)
Record State : Type := mkState {
  progressRef : R;
  angularVelocity : R;
  lastMouseX : R;
  isDraggingScene : bool;
  lastHandX : R;
  rotationY : R
}.

(** What one call of the [useFrame] callback reads from outside: the
    props of the current render, the two refs shared with the gesture
    manager, the frame time, and whether [groupRef.current] is set. *)
Record Frame : Type := mkFrame {
  treeState : TreeMorphState;
  isDraggingPhoto : bool;
  isHandActive : bool;
  handX : R;
  delta : R;
  groupMounted : bool
}.

(** [useRef(0)], [useRef(0.15)], [useRef(0)], [useRef(false)],
    [useRef(0.5)]; a fresh group has rotation 0. *)
Definition initial : State := mkState 0 0.15 0 false 0.5 0.

Definition targetProgress (ts : TreeMorphState) : R :=
  if TreeMorphState_eqb ts TREE_SHAPE then 1 else 0.

Definition friction : R := 0.96.
Definition idleSpeed : R := 0.06.

(** The first statement of the callback. *)
Definition easeProgress (f : Frame) (p : R) : R :=
  MathUtils.lerp p (targetProgress (treeState f)) (Rmin (delta f * 3.5) 1.0).

(** The velocity update of a frame that passed the photo-drag test. *)
Definition handStep (f : Frame) (s : State) : R * R :=
  if negb (isDraggingScene s) && isHandActive f then
    let currentHandX := handX f in
    let handDelta := currentHandX - lastHandX s in
    (angularVelocity s + handDelta * 18.0, currentHandX)
  else (angularVelocity s, lastHandX s).

Definition idleStep (f : Frame) (s : State) (v : R) : R :=
  if negb (isDraggingScene s) && negb (isHandActive f) then
    if Rlt_dec (Rabs v) idleSpeed then MathUtils.lerp v idleSpeed 0.05 else v
  else v.

Definition useFrame (f : Frame) (s : State) : State :=
  let p := easeProgress f (progressRef s) in
  if groupMounted f then
    if isDraggingPhoto f then
      mkState p 0 (lastMouseX s) (isDraggingScene s) (lastHandX s) (rotationY s)
    else
      let '(v1, lhx) := handStep f s in
      let v2 := v1 * friction in
      let v3 := idleStep f s v2 in
      mkState p v3 (lastMouseX s) (isDraggingScene s) lhx
              (rotationY s + v3 * delta f)
  else
    mkState p (angularVelocity s) (lastMouseX s) (isDraggingScene s)
            (lastHandX s) (rotationY s).

(** Successive frames, oldest first. *)
Fixpoint run (fs : list Frame) (s : State) : State :=
  match fs with
  | [] => s
  | f :: fs' => run fs' (useFrame f s)
  end.

(** A frame with no input from outside: the group is mounted, no photo
    is dragged and no hand is tracked.  Whether the scene itself is
    being dragged is in the state, [isDraggingScene]. *)
Definition idle (f : Frame) : Prop :=
  groupMounted f = true /\ isDraggingPhoto f = false /\ isHandActive f = false.

(** The speed at which one round of friction and one round of the 5%
    ease toward [idleSpeed] cancel: [v = 0.95 * (0.96 * v) + 0.05 * 0.06]. *)
Definition steadySpeed : R := 0.05 * idleSpeed / (1 - 0.95 * friction).

(** The same frame with the [isDraggingPhoto] prop replaced. *)
Definition withDraggingPhoto (b : bool) (f : Frame) : Frame :=
  mkFrame (treeState f) b (isHandActive f) (handX f) (delta f) (groupMounted f).

End Scene.

(* ================================================================== *)
(** ** [Foliage.tsx]: the vertex shader and the uniform update *)

Module Foliage.

(** The part of [main] that computes [currentPos], up to the
    multiplication by [modelViewMatrix]. *)
Definition blend (uProgress : R) : R := GLSL.smoothstep 0.0 1.0 uProgress.

Definition explosion (t : R) : R :=
  GLSL.smoothstep 0.8 0.0 t * GLSL.smoothstep 0.0 0.5 t * 1200.0.

Definition chaosPos (uTime aPhase chaos : R) (p : vec3) : vec3 :=
  Vec3 (vx p + sin (uTime * 0.5 + aPhase * 2.0) * chaos)
       (vy p + cos (uTime * 0.4 + aPhase * 3.1) * chaos)
       (vz p + sin (uTime * 0.6 + aPhase * 1.5) * chaos).

Definition breathe (uTime aPhase t : R) : R :=
  sin (uTime * 1.5 + aPhase) * 15.0 * (1.1 - t).

Definition currentPos (uTime uProgress : R) (aScatterPos aTreePos : vec3)
    (aPhase : R) : vec3 :=
  let t := blend uProgress in
  let inverseT := 1.0 - t in
  let p0 := GLSL.vmix aScatterPos aTreePos t in
  let p1 := vadd p0 (vscale (GLSL.normalize aScatterPos) (explosion t)) in
  let chaos := inverseT * 250.0 in
  let p2 := chaosPos uTime aPhase chaos p1 in
  vadd p2 (vscale (vscale (GLSL.normalize p2) (breathe uTime aPhase t)) 0.2).

(** [vAlpha], the last statement of [main]. *)
Definition fadeIn (uProgress : R) : R :=
  GLSL.smoothstep 0.0 0.1 (uProgress * 0.5 + 0.5).

Definition vAlpha (uProgress : R) : R :=
  let t := blend uProgress in
  let inverseT := 1.0 - t in
  (0.75 + 0.25 * inverseT) * fadeIn uProgress.

(** The uniforms, [{ uTime: 0, uProgress: 0 }] at creation, and the
    [useFrame] callback that eases [uProgress] toward the [progress]
    prop. *)
Record Uniforms : Type := mkUniforms { uTime : R; uProgress : R }.

Definition initialUniforms : Uniforms := mkUniforms 0 0.

Definition useFrame (meshMounted : bool) (elapsedTime progress : R)
    (u : Uniforms) : Uniforms :=
  if meshMounted then
    mkUniforms elapsedTime (MathUtils.lerp (uProgress u) progress 0.1)
  else u.

End Foliage.

(* ================================================================== *)
(** ** The gesture manager: [onResults] *)

Module Gesture.

Record Landmark : Type := mkLandmark { lx : R; ly : R; lz : R }.

(** [results.multiHandLandmarks]: absent, or a list of hands, each a
    list of landmarks. *)
Record Results : Type := mkResults {
  multiHandLandmarks : option (list (list Landmark))
}.

(** The two refs shared with the scene. *)
Record Refs : Type := mkRefs { isHandActiveRef : bool; handXRef : R }.

(** What a call of [onResults] did: it returned, having called
    [onStateChange] at most once, or it threw on reading a coordinate of
    a missing landmark. *)
Inductive Outcome : Type :=
| Returned (refs : Refs) (emitted : option TreeMorphState)
| Threw (refs : Refs).

Definition getDistance (p1 p2 : Landmark) : R :=
  sqrt ((lx p1 - lx p2) ^ 2 + (ly p1 - ly p2) ^ 2).

Definition tips : list nat := [8; 12; 16; 20]%nat.

(** One round of [tips.forEach]; [None] stands for the exception. *)
Definition countTip (landmarks : list Landmark) (wrist : Landmark)
    (referenceDist : R) (acc : option nat) (tipIdx : nat) : option nat :=
  match acc, nth_error landmarks tipIdx with
  | Some n, Some tip =>
      let dist := getDistance tip wrist in
      Some (if Rgt_dec dist (referenceDist * 1.7) then S n else n)
  | _, _ => None
  end.

Definition extendedFingers (landmarks : list Landmark) (wrist : Landmark)
    : option nat :=
  match nth_error landmarks 9 with
  | None => None
  | Some palmCenter =>
      let referenceDist := getDistance wrist palmCenter in
      match fold_left (countTip landmarks wrist referenceDist) tips (Some 0%nat) with
      | None => None
      | Some n =>
          match nth_error landmarks 4 with
          | None => None
          | Some thumbTip =>
              Some (if Rgt_dec (getDistance thumbTip wrist) (referenceDist * 1.3)
                    then S n else n)
          end
      end
  end.

(** The two tests on the count. *)
Definition classify (n : nat) : option TreeMorphState :=
  if (3 <=? n)%nat then Some SCATTERED
  else if (n <=? 1)%nat then Some TREE_SHAPE
  else None.

Definition onResults (results : Results) (refs : Refs) : Outcome :=
  match multiHandLandmarks results with
  | Some (landmarks :: _) =>
      let refs1 := mkRefs true (handXRef refs) in
      match nth_error landmarks 0 with
      | None => Threw refs1
      | Some wrist =>
          let refs2 := mkRefs true (lx wrist) in
          match extendedFingers landmarks wrist with
          | None => Threw refs2
          | Some n => Returned refs2 (classify n)
          end
      end
  | _ => Returned (mkRefs false (handXRef refs)) None
  end.

(** [App.handleGestureStateChange]: an emitted state replaces
    [treeState]; without an emission [treeState] is what it was. *)
Definition handleGestureStateChange (treeState : TreeMorphState)
    (emitted : option TreeMorphState) : TreeMorphState :=
  match emitted with
  | Some newState => newState
  | None => treeState
  end.

(** A sample frame: all landmarks on the vertical line x = 0.5, the
    wrist at height 0, the palm centre (landmark 9) at height 1, every
    other landmark, the five tips among them, at height 2. *)
Definition openHand : list Landmark :=
  map (fun i => mkLandmark 0.5 (match i with 0%nat => 0 | 9%nat => 1 | _ => 2 end) 0)
      (seq 0 21).

End Gesture.

(* ================================================================== *)
(** ** The part of three.js the components call

    [Plane] and [Vector3.normalize] are written out.  The ray cast from
    the camera through the pointer, its intersection with a plane and the
    world matrix of a parent object are the library's: an interface, so
    that what is proved holds for whatever they compute. *)

Record Plane : Type := mkPlane { normal : vec3; constant : R }.

Definition vdot (a b : vec3) : R := vx a * vx b + vy a * vy b + vz a * vz b.

(** [Vector3.normalize()]: [this.divideScalar(this.length() || 1)]. *)
Definition vnormalize (v : vec3) : vec3 :=
  let l := vlength v in
  vscale v (/ (if Req_dec_T l 0 then 1 else l)).

(** [Plane.setFromNormalAndCoplanarPoint(normal, point)]. *)
Definition setFromNormalAndCoplanarPoint (n point : vec3) : Plane :=
  mkPlane n (- vdot point n).

Class ThreeJS : Type := {
  Ray : Type;
  Object3D : Type;
  (** [ray.intersectPlane(plane, target)]: the point written to [target],
      or [None] for [null], which leaves [target] as it was. *)
  intersectPlane : Ray -> Plane -> option vec3;
  worldToLocal : Object3D -> vec3 -> vec3;
  localToWorld : Object3D -> vec3 -> vec3
}.

(** An implementation of the interface, used for the examples: rays with
    origin and direction and the library's [Ray.distanceToPlane] and
    [Ray.intersectPlane], and parents whose world matrix is a
    translation. *)
Module Sample.

Record ray : Type := mkRay { origin : vec3; direction : vec3 }.

Definition distanceToPlane (r : ray) (pl : Plane) : option R :=
  let denominator := vdot (normal pl) (direction r) in
  if Req_dec_T denominator 0 then
    if Req_dec_T (vdot (normal pl) (origin r) + constant pl) 0
    then Some 0 else None
  else
    let t := - (vdot (origin r) (normal pl) + constant pl) / denominator in
    if Rle_dec 0 t then Some t else None.

Definition intersect (r : ray) (pl : Plane) : option vec3 :=
  match distanceToPlane r pl with
  | None => None
  | Some t => Some (vadd (origin r) (vscale (direction r) t))
  end.

Definition three : ThreeJS :=
  Build_ThreeJS ray vec3 intersect
                (fun offset v => vsub v offset) (fun offset v => vadd v offset).

End Sample.

(** In JavaScript every object is truthy. *)
Definition truthyObject {A : Type} (_ : A) : bool := true.

(* ================================================================== *)
(** ** [PhotoOrnaments.tsx] *)

Module PhotoOrnaments.

(** [DualPosition] of [types.ts], with the fields the component sets. *)
Record DualPosition : Type := mkDual {
  tree : vec3;
  scatter : vec3;
  rotationSpeed : R;
  phaseOffset : R;
  scale : R
}.

(** The fields of [meshRef.current] that the callbacks read and write. *)
Record Mesh : Type := mkMesh { position : vec3; scaleX : R; opacity : R }.

Record DragVectors : Type := mkDrag {
  dragPlane : Plane;
  intersection : vec3;
  dragOffset : vec3;
  dragStartPoint : R * R
}.

Inductive Cursor : Type := grabbing | zoom_in | auto.

(** Calls of the props [onClick], [onDragStart], [onDragEnd]. *)
Inductive Call : Type :=
| OnClick (url : string)
| OnDragStart
| OnDragEnd.

(** One [PhotoItem]: props [url] and [data] (the object held in
    [photoData], mutated in place by a drag), the mesh if mounted, the two
    pieces of React state, the memoised scratch vectors, the cursor of
    [document.body], the pointer capture, and the calls made so far,
    oldest first. *)
Record Item : Type := mkItem {
  url : string;
  data : DualPosition;
  mesh : option Mesh;
  hovered : bool;
  isDragging : bool;
  drag : DragVectors;
  cursor : Cursor;
  pointerCaptured : bool;
  calls : list Call
}.

Section Handlers.
Context `{ThreeJS}.

(** What a pointer handler reads from the three.js state: the camera
    position, the ray of [raycaster.setFromCamera(pointer, camera)], and
    the parent of the mesh, if any, with its current world matrix. *)
Record World : Type := mkWorld {
  cameraPosition : vec3;
  ray : Ray;
  parent : option Object3D
}.

Definition getWorldPosition (w : World) (m : Mesh) : vec3 :=
  match parent w with
  | Some p => localToWorld p (position m)
  | None => position m
  end.

Definition handlePointerDown (w : World) (clientX clientY : R) (s : Item)
    : Item :=
  match mesh s with
  | None => s
  | Some m =>
      let worldPos := getWorldPosition w m in
      let n := vnormalize (vsub (cameraPosition w) worldPos) in
      let plane := setFromNormalAndCoplanarPoint n worldPos in
      let '(inter, off) :=
        match intersectPlane (ray w) plane with
        | Some p => (p, vsub worldPos p)
        | None => (intersection (drag s), dragOffset (drag s))
        end in
      mkItem (url s) (data s) (mesh s) (hovered s) true
             (mkDrag plane inter off (clientX, clientY))
             grabbing true (calls s ++ [OnDragStart])
  end.

Definition setTree (d : DualPosition) (v : vec3) : DualPosition :=
  mkDual v (scatter d) (rotationSpeed d) (phaseOffset d) (scale d).

Definition handlePointerMove (w : World) (s : Item) : Item :=
  if negb (isDragging s) then s
  else match mesh s, parent w with
       | Some _, Some par =>
           match intersectPlane (ray w) (dragPlane (drag s)) with
           | Some p =>
               let worldTarget := vadd p (dragOffset (drag s)) in
               let localTarget := worldToLocal par worldTarget in
               mkItem (url s) (setTree (data s) localTarget) (mesh s)
                      (hovered s) (isDragging s)
                      (mkDrag (dragPlane (drag s)) p (dragOffset (drag s))
                              (dragStartPoint (drag s)))
                      (cursor s) (pointerCaptured s) (calls s)
           | None => s
           end
       | _, _ => s
       end.

Definition handlePointerUp (s : Item) : Item :=
  if negb (isDragging s) then s
  else mkItem (url s) (data s) (mesh s) (hovered s) false (drag s)
              (if hovered s then zoom_in else auto) false
              (calls s ++ [OnDragEnd]).

Definition handleDoubleClick (s : Item) : Item :=
  mkItem (url s) (data s) (mesh s) (hovered s) (isDragging s) (drag s)
         (cursor s) (pointerCaptured s) (calls s ++ [OnClick (url s)]).

Definition onPointerOver (s : Item) : Item :=
  mkItem (url s) (data s) (mesh s) true (isDragging s) (drag s)
         (if negb (isDragging s) then zoom_in else cursor s)
         (pointerCaptured s) (calls s).

Definition onPointerOut (s : Item) : Item :=
  mkItem (url s) (data s) (mesh s) false (isDragging s) (drag s)
         (if negb (isDragging s) then auto else cursor s)
         (pointerCaptured s) (calls s).

(** [targetPos] as the [useFrame] callback sets it. *)
Definition targetPos (t progress : R) (dragging : bool) (d : DualPosition)
    : vec3 :=
  let easeProgress := MathUtils.smoothstep progress 0 1 in
  let inverseEase := 1.0 - easeProgress in
  let chaosX := sin (t * 0.4 + phaseOffset d) * 150.0 * inverseEase in
  let chaosY := cos (t * 0.3 + phaseOffset d) * 150.0 * inverseEase in
  let chaosZ := sin (t * 0.5 + phaseOffset d * 2.0) * 150.0 * inverseEase in
  let baseTargetX :=
    MathUtils.lerp (vx (scatter d)) (vx (tree d)) easeProgress + chaosX in
  let baseTargetY :=
    MathUtils.lerp (vy (scatter d)) (vy (tree d)) easeProgress + chaosY in
  let baseTargetZ :=
    MathUtils.lerp (vz (scatter d)) (vz (tree d)) easeProgress + chaosZ in
  let floatFactor := if dragging then 0 else 1.0 in
  let floatAmp := (15.0 + inverseEase * 60.0) * floatFactor in
  let floatY := sin (t * 0.8 + phaseOffset d) * floatAmp in
  let floatX := cos (t * 0.5 + phaseOffset d) * floatAmp * 0.5 in
  Vec3 (baseTargetX + floatX) (baseTargetY + floatY) baseTargetZ.

Definition lerpRate (dragging : bool) : R := if dragging then 0.3 else 0.08.

(** The [useFrame] callback.  The orientation set by [lookAt] is not
    part of the state; the material is the [meshStandardMaterial] of the
    component, so the opacity branch is taken. *)
Definition useFrame (t progress globalScale : R) (s : Item) : Item :=
  match mesh s with
  | None => s
  | Some m =>
      let d := data s in
      let easeProgress := MathUtils.smoothstep progress 0 1 in
      let target := targetPos t progress (isDragging s) d in
      let position' := vlerp (position m) target (lerpRate (isDragging s)) in
      let pulse := 1.0 + sin (t * 1.5 + phaseOffset d) * 0.04 * easeProgress in
      let scatterShrink := 0.8 + 0.2 * easeProgress in
      let feedbackScale := if hovered s || isDragging s then 1.4 else 1.0 in
      let targetScaleValue :=
        scale d * pulse * globalScale * feedbackScale * scatterShrink in
      let nextScale := MathUtils.lerp (scaleX m) targetScaleValue 0.15 in
      let targetOpacity :=
        (if isDragging s then 1.0 else 0.7) + 0.3 * easeProgress in
      let opacity' := MathUtils.lerp (opacity m) targetOpacity 0.1 in
      mkItem (url s) d (Some (mkMesh position' nextScale opacity'))
             (hovered s) (isDragging s) (drag s) (cursor s)
             (pointerCaptured s) (calls s)
  end.

(** What can happen to an item, and a history of it, oldest first. *)
Inductive Event : Type :=
| PointerDown (w : World) (clientX clientY : R)
| PointerMove (w : World)
| PointerUp
| DoubleClick
| PointerOver
| PointerOut
| Tick (t progress globalScale : R).

Definition step (e : Event) (s : Item) : Item :=
  match e with
  | PointerDown w x y => handlePointerDown w x y s
  | PointerMove w => handlePointerMove w s
  | PointerUp => handlePointerUp s
  | DoubleClick => handleDoubleClick s
  | PointerOver => onPointerOver s
  | PointerOut => onPointerOut s
  | Tick t p g => useFrame t p g s
  end.

Fixpoint run (es : list Event) (s : Item) : Item :=
  match es with
  | [] => s
  | e :: es' => run es' (step e s)
  end.

(** Events that neither start nor end a drag. *)
Definition passive (e : Event) : Prop :=
  match e with
  | PointerDown _ _ _ | PointerUp => False
  | _ => True
  end.

(** Passive events none of which is a pointer move whose ray meets
    [plane] while the mesh has a parent. *)
Definition misses (plane : Plane) (e : Event) : Prop :=
  match e with
  | PointerDown _ _ _ | PointerUp => False
  | PointerMove w => parent w = None \/ intersectPlane (ray w) plane = None
  | _ => True
  end.

(** Frames, and frames at full progress. *)
Definition isTick (e : Event) : Prop :=
  match e with
  | Tick _ _ _ => True
  | _ => False
  end.

Definition fullTick (e : Event) : Prop :=
  match e with
  | Tick _ progress _ => 1 <= progress
  | _ => False
  end.

End Handlers.

(** What the events between pointer-down and pointer-up keep: the drag
    is on, the mesh is mounted, plane and grab offset are those set by
    the pointer-down. *)
Definition held (plane : Plane) (off : vec3) (s : Item) : Prop :=
  isDragging s = true
  /\ (exists m, mesh s = Some m)
  /\ dragPlane (drag s) = plane
  /\ dragOffset (drag s) = off.

(** A sample ornament under the sample implementation: mounted at the
    origin of a parent that sits at the origin, with the camera at
    (0,0,1) and the pointer ray going from (x,y,1) straight down the z
    axis. *)
Definition sampleItem : Item :=
  mkItem "photo.png" (mkDual (Vec3 10 0 0) (Vec3 0 20 0) 0 0 110)
         (Some (mkMesh vzero 1 1)) false false
         (mkDrag (mkPlane (Vec3 1 0 0) 0) vzero vzero (0, 0)) auto false [].

Definition pointerAt (x y : R) : World (H := Sample.three) :=
  mkWorld (H := Sample.three) (Vec3 0 0 1)
          (Sample.mkRay (Vec3 x y 1) (Vec3 0 0 (-1))) (Some vzero).

(** The identifiers passed to [onClick], oldest first. *)
Definition clickCalls (l : list Call) : list string :=
  flat_map (fun c => match c with OnClick u => [u] | _ => [] end) l.

(** *** The collection: the effect on [images] *)

Record Photo : Type := mkPhoto { purl : string; pdata : DualPosition }.

(** The values that [getOffAxisPosition(2200, 350)],
    [getSpherePosition(4500)] and [Math.random()] return for one new
    item.  The two generators are in [utils/math], which is not part of
    the sources at hand; what they return is an input here. *)
Record Draw : Type := mkDraw {
  offAxisPosition : vec3;
  spherePosition : vec3;
  random : R
}.

(** [Array.prototype.includes] on strings. *)
Definition includes (l : list string) (x : string) : bool :=
  existsb (String.eqb x) l.

Definition newItem (dr : Draw) (u : string) : Photo :=
  mkPhoto u (mkDual (offAxisPosition dr) (spherePosition dr) 0
                    (random dr * PI * 2) 110).

(** [newImages.map(url => ...)], the [k]-th call using the [k]-th draw. *)
Fixpoint newItems (draws : nat -> Draw) (k : nat) (newImages : list string)
    : list Photo :=
  match newImages with
  | [] => []
  | u :: rest => newItem (draws k) u :: newItems draws (S k) rest
  end.

(** The updater passed to [setPhotoData]. *)
Definition setPhotoData (draws : nat -> Draw) (images : list string)
    (prev : list Photo) : list Photo :=
  let existingUrls := map purl prev in
  let newImages := filter (fun u => negb (includes existingUrls u)) images in
  let items := newItems draws 0 newImages in
  let filteredPrev := filter (fun p => includes images (purl p)) prev in
  filteredPrev ++ items.

(** [App]: an upload appends to [userImages], a deletion filters the
    viewed image out. *)
Definition handleFileUpload (newImages userImages : list string)
    : list string := userImages ++ newImages.

Definition handleDeletePhoto (viewingImage : string)
    (userImages : list string) : list string :=
  filter (fun img => negb (String.eqb img viewingImage)) userImages.

(** The number of ornaments with a given source. *)
Definition ornaments (u : string) (l : list Photo) : nat :=
  List.length (filter (fun p => String.eqb (purl p) u) l).

End PhotoOrnaments.

(* ================================================================== *)
(** ** [GoldDust.tsx] *)

Module GoldDust.

Record State : Type := mkState {
  uTime : R;
  uMouse : vec3;
  uHover : R;
  mousePlane : Plane;
  mousePos3D : vec3
}.

(** The uniforms and refs at creation. *)
Definition initial : State :=
  mkState 0 (Vec3 0 0 0) 0 (mkPlane (Vec3 0 0 1) 0) (Vec3 0 0 0).

Section Frames.
Context `{ThreeJS}.

Record Frame : Type := mkFrame {
  meshMounted : bool;
  elapsedTime : R;
  cameraPosition : vec3;
  ray : Ray
}.

Definition useFrame (f : Frame) (s : State) : State :=
  if negb (meshMounted f) then s
  else
    let plane := mkPlane (vnormalize (cameraPosition f))
                         (constant (mousePlane s)) in
    let target :=
      match intersectPlane (ray f) plane with
      | Some p => p
      | None => Vec3 0 0 0
      end in
    if truthyObject target then
      let m := vlerp (mousePos3D s) target 0.1 in
      mkState (elapsedTime f) m 1.0 plane m
    else
      mkState (elapsedTime f) (uMouse s) (uHover s) plane (mousePos3D s).

Fixpoint run (fs : list Frame) (s : State) : State :=
  match fs with
  | [] => s
  | f :: fs' => run fs' (useFrame f s)
  end.

End Frames.

(** The vertex shader: the drift of a particle, and its position after
    the attraction. *)
Definition drift (uTime : R) (position : vec3) (aPhase : R) : vec3 :=
  let t := uTime * 0.4 in
  Vec3 (vx position + cos (t * 0.5 + aPhase) * 20.0)
       (vy position + sin (t + aPhase) * 40.0)
       (vz position).

Definition attractRadius : R := 1200.0.

Definition dustPos (uTime : R) (uMouse : vec3) (uHover : R)
    (position : vec3) (aPhase : R) : vec3 :=
  let pos := drift uTime position aPhase in
  let d := vdistance pos uMouse in
  if Rlt_dec d attractRadius then
    if Rgt_dec uHover 0.5 then
      let dir := GLSL.normalize (vsub uMouse pos) in
      let strength := 1.0 - d / attractRadius in
      let strength := strength ^ 2 in
      vadd pos (vscale (vscale dir strength) 300.0)
    else pos
  else pos.

End GoldDust.

(* ================================================================== *)
(** ** [Scene.tsx]: the pointer handlers of the invisible plane *)

Module ScenePointer.
Import Scene.

(** [handlePointerDown]; [isDraggingPhoto] is the prop of the render the
    handler belongs to. *)
Definition handlePointerDown (isDraggingPhoto : bool) (clientX : R)
    (s : State) : State :=
  if isDraggingPhoto then s
  else mkState (progressRef s) 0 clientX true (lastHandX s) (rotationY s).

Definition handlePointerUp (s : State) : State :=
  mkState (progressRef s) (angularVelocity s) (lastMouseX s) false
          (lastHandX s) (rotationY s).

Definition handlePointerMove (isDraggingPhoto groupMounted : bool)
    (clientX : R) (s : State) : State :=
  if isDraggingScene s && groupMounted && negb isDraggingPhoto then
    let deltaX := clientX - lastMouseX s in
    mkState (progressRef s) (deltaX * 0.05) clientX (isDraggingScene s)
            (lastHandX s) (rotationY s + deltaX * 0.005)
  else s.

(** Pointer events on the plane ([onPointerLeave] is [handlePointerUp]
    too), each with the [isDraggingPhoto] prop and, for a move, whether
    the group is mounted. *)
Inductive Event : Type :=
| Down (isDraggingPhoto : bool) (clientX : R)
| Up
| Move (isDraggingPhoto groupMounted : bool) (clientX : R).

Definition step (e : Event) (s : State) : State :=
  match e with
  | Down b x => handlePointerDown b x s
  | Up => handlePointerUp s
  | Move b g x => handlePointerMove b g x s
  end.

Fixpoint run (es : list Event) (s : State) : State :=
  match es with
  | [] => s
  | e :: es' => run es' (step e s)
  end.

(** What happens during a scene drag: pointer moves (no photo is
    dragged, the group is mounted) and frames of [Scene.useFrame] in
    between. *)
Inductive DragStep : Type :=
| MoveTo (clientX : R)
| FrameOf (f : Frame).

Definition dragStep (d : DragStep) (s : State) : State :=
  match d with
  | MoveTo x => handlePointerMove false true x s
  | FrameOf f => useFrame f s
  end.

Fixpoint dragRun (h : list DragStep) (s : State) : State :=
  match h with
  | [] => s
  | d :: h' => dragRun h' (dragStep d s)
  end.

(** The pointer position after the history, starting from [from]. *)
Fixpoint lastX (from : R) (h : list DragStep) : R :=
  match h with
  | [] => from
  | MoveTo x :: h' => lastX x h'
  | FrameOf _ :: h' => lastX from h'
  end.

(** The pointer never moves left (right), and no frame time is
    negative. *)
Fixpoint rightward (from : R) (h : list DragStep) : Prop :=
  match h with
  | [] => True
  | MoveTo x :: h' => from <= x /\ rightward x h'
  | FrameOf f :: h' => 0 <= delta f /\ rightward from h'
  end.

Fixpoint leftward (from : R) (h : list DragStep) : Prop :=
  match h with
  | [] => True
  | MoveTo x :: h' => x <= from /\ leftward x h'
  | FrameOf f :: h' => 0 <= delta f /\ leftward from h'
  end.

(** The event happens while a photo is dragged. *)
Definition duringPhotoDrag (e : Event) : Prop :=
  match e with
  | Down b _ => b = true
  | Up => True
  | Move b _ _ => b = true
  end.

End ScenePointer.

(* ================================================================== *)
(** ** [Foliage.tsx]: size, colour and the fragment shader *)

Module FoliageLook.

Definition sizeMultiplier (t : R) : R := GLSL.mix 1.6 1.0 t.

(** [gl_PointSize]; [mvz] is [mvPosition.z]. *)
Definition pointSize (aSize uProgress mvz : R) : R :=
  (aSize * 1.3 * sizeMultiplier (Foliage.blend uProgress)) * (1800.0 / - mvz).

Definition colPink : vec3 := Vec3 1.0 0.45 0.75.
Definition colCyan : vec3 := Vec3 0.1 0.9 1.0.
Definition colGold : vec3 := Vec3 1.0 0.85 0.2.

Definition baseColor (aColorIndex : R) : vec3 :=
  if Rgt_dec aColorIndex 1.5 then colCyan
  else if Rgt_dec aColorIndex 0.5 then colGold
  else colPink.

Definition twinkle (uTime aPhase : R) : R :=
  sin (uTime * 4.0 + aPhase * 10.0) * 0.15.

Definition vColor (uTime aPhase aColorIndex : R) : vec3 :=
  vadd (baseColor aColorIndex)
       (Vec3 (twinkle uTime aPhase) (twinkle uTime aPhase) (twinkle uTime aPhase)).

(** The attributes the component computes for a particle from the three
    random draws [Math.floor(Math.random() * 3)], [Math.random()] (size)
    and [Math.random()] (phase). *)
Definition colorIndex (axis : nat) : R :=
  match axis with
  | 0%nat => 2.0
  | 1%nat => 1.0
  | _ => 0.0
  end.

Definition particleSize (random : R) : R := random * 7 + 5.

(** The fragment shader: [None] for [discard], else the alpha of
    [gl_FragColor]; [px], [py] are the components of [gl_PointCoord]. *)
Definition fragmentAlpha (px py vAlpha : R) : option R :=
  let cx := px - 0.5 in
  let cy := py - 0.5 in
  let dist := sqrt (cx * cx + cy * cy) in
  if Rgt_dec dist 0.5 then None
  else Some ((1.0 - GLSL.smoothstep 0.2 0.5 dist) * vAlpha).

(** Frames of the uniform update with the mesh mounted and one value of
    the [progress] prop. *)
Fixpoint frames (elapsed : list R) (progress : R) (u : Foliage.Uniforms)
    : Foliage.Uniforms :=
  match elapsed with
  | [] => u
  | t :: rest => frames rest progress (Foliage.useFrame true t progress u)
  end.

End FoliageLook.

(* ================================================================== *)
(** ** The gesture manager: the effect on [active] *)

Module GestureEffect.

(** The refs of the component and a log of what happened to the
    MediaPipe objects: whether [handsRef.current] and
    [cameraRef.current] are set, whether the last run of the effect
    returned a cleanup, and how many [Hands] were created and how many
    cameras were started and stopped. *)
Record Manager : Type := mkManager {
  handsRef : bool;
  cameraRef : bool;
  cleanupPending : bool;
  isHandActiveRef : bool;
  handsCreated : nat;
  cameraStarts : nat;
  cameraStops : nat
}.


Definition initial : Manager := mkManager false false false false 0 0 0.










(** A hand moved by [(dx, dy)] in the image and scaled by [k] about the
    image origin. *)
Definition similar (k dx dy : R) (p : Gesture.Landmark) : Gesture.Landmark :=
  Gesture.mkLandmark (k * Gesture.lx p + dx) (k * Gesture.ly p + dy)
                     (Gesture.lz p).

End GestureEffect.

(* ================================================================== *)
(** ** The drag flag that [PhotoOrnaments] reports to [App] *)

Module DragFlag.
Import PhotoOrnaments.

(** [onDragStart] is [() => onDragStateChange(true)], [onDragEnd] is
    [() => onDragStateChange(false)], and [onDragStateChange] is
    [setIsDraggingPhoto] of [App]. *)
Definition applyCall (flag : bool) (c : Call) : bool :=
  match c with
  | OnDragStart => true
  | OnDragEnd => false
  | OnClick _ => flag
  end.

(** The opacity of the mesh, 1 when the mesh is not mounted. *)
Definition opacityOf (s : Item) : R :=
  match mesh s with
  | Some m => opacity m
  | None => 1
  end.

End DragFlag.

(* ================================================================== *)
(** ** All ornaments and the one drag flag *)

Module SharedDrag.
Import PhotoOrnaments.

(** The ornaments of [photoData] in order, and the state
    [isDraggingPhoto] of [App] that every ornament's callbacks set. *)
Record Shared : Type := mkShared {
  items : list Item;
  isDraggingPhoto : bool
}.

Fixpoint replaceAt (i : nat) (s' : Item) (l : list Item) : list Item :=
  match l, i with
  | [], _ => []
  | _ :: rest, O => s' :: rest
  | x :: rest, S j => x :: replaceAt j s' rest
  end.

Section Collection.
Context `{ThreeJS}.

(** The calls that the handler of [e] adds to the log of [s]. *)
Definition callsMade (e : Event) (s : Item) : list Call :=
  skipn (length (calls s)) (calls (step e s)).

(** The event [e] reaches the [i]-th ornament, if there is one: its
    handler runs, and the calls it makes are applied to the flag. *)
Definition deliver (i : nat) (e : Event) (st : Shared) : Shared :=
  match nth_error (items st) i with
  | None => st
  | Some s =>
      mkShared (replaceAt i (step e s) (items st))
               (fold_left DragFlag.applyCall (callsMade e s)
                          (isDraggingPhoto st))
  end.

Fixpoint deliveries (l : list (nat * Event)) (st : Shared) : Shared :=
  match l with
  | [] => st
  | (i, e) :: rest => deliveries rest (deliver i e st)
  end.

(** When the flag is set, some ornament is being dragged. *)
Definition flagHasOwner (st : Shared) : Prop :=
  isDraggingPhoto st = true ->
  exists i s, nth_error (items st) i = Some s /\ isDragging s = true.

End Collection.

End SharedDrag.

(* ================================================================== *)
(** ** [GoldDust.tsx]: the smoothing target, alpha and fragment shader *)

Module DustLook.

Section Target.
Context `{ThreeJS}.

(** The vector [target] of a frame: the point where the ray meets the
    plane with the camera direction as normal and the given constant, or
    the fresh zero vector. *)
Definition target (f : GoldDust.Frame) (c : R) : vec3 :=
  match intersectPlane (GoldDust.ray f)
                       (mkPlane (vnormalize (GoldDust.cameraPosition f)) c) with
  | Some p => p
  | None => Vec3 0 0 0
  end.

End Target.

Definition vAlpha (uTime aPhase : R) : R :=
  0.5 + 0.3 * sin (uTime * 1.5 + aPhase).

(** The fragment shader: [None] for [discard], else the alpha of
    [gl_FragColor]. *)
Definition fragmentAlpha (px py vAlpha : R) : option R :=
  let cx := px - 0.5 in
  let cy := py - 0.5 in
  let dist := sqrt (cx * cx + cy * cy) in
  if Rgt_dec dist 0.5 then None
  else
    let strength := 1.0 - dist * 2.0 in
    let strength := strength ^ 3 in
    Some (strength * vAlpha).

End DustLook.

(* ================================================================== *)
(** ** [App]: reading the uploaded files *)

Module App.

(** The array [newImages] of one call of [handleFileUpload], and the
    state [userImages]. *)
Record Upload : Type := mkUpload {
  newImages : list string;
  userImages : list string
}.

(** [reader.onload] for one file: [result] is [e.target?.result], absent
    or a string; the empty string is falsy. *)
Definition onload (filesLength : nat) (result : option string) (st : Upload)
    : Upload :=
  match result with
  | Some r =>
      if String.eqb r EmptyString then st
      else
        let pushed := newImages st ++ [r] in
        if (length pushed =? filesLength)%nat
        then mkUpload pushed (userImages st ++ pushed)
        else mkUpload pushed (userImages st)
  | None => st
  end.

(** [handleFileUpload] for [filesLength] files, followed by the [onload]
    events that fire, in the order in which they fire. *)
Definition handleFileUpload (filesLength : nat) (results : list (option string))
    (images : list string) : list string :=
  userImages (fold_left (fun st r => onload filesLength r st) results
                        (mkUpload [] images)).

(** The results that count: present and not empty. *)
Definition loaded (results : list (option string)) : list string :=
  flat_map (fun r => match r with
                     | Some s => if String.eqb s EmptyString then [] else [s]
                     | None => []
                     end) results.

End App.

(* ================================================================== *)
(** * Properties *)

(** ** Arithmetic of the easing steps *)

Lemma lerp_error (x y t : R) :
  MathUtils.lerp x y t - y = (1 - t) * (x - y).
Proof. unfold MathUtils.lerp. ring. Qed.

Lemma lerp_one (x y : R) : MathUtils.lerp x y 1 = y.
Proof. unfold MathUtils.lerp. ring. Qed.

Lemma Rabs_scale (k x : R) : 0 <= k -> Rabs (k * x) = k * Rabs x.
Proof. intros Hk. rewrite Rabs_mult, (Rabs_pos_eq k); auto. Qed.

Lemma vlerp_error (a b : vec3) (k : R) :
  vsub (vlerp a b k) b = vscale (vsub a b) (1 - k).
Proof. unfold vsub, vlerp, vscale; simpl. f_equal; ring. Qed.

Lemma vec3_eq (a b : vec3) :
  vx a = vx b -> vy a = vy b -> vz a = vz b -> a = b.
Proof. destruct a, b; simpl; intros; subst; reflexivity. Qed.

(** A [lerp] by a fraction other than 1 does not reach its target. *)
Lemma vlerp_short (a b : vec3) (k : R) :
  k <> 1 -> a <> b -> vlerp a b k <> b.
Proof.
  intros Hk Hab Heq. apply Hab.
  assert (forall x y, x + (y - x) * k = y -> x = y) as Hcomp.
  { intros x y Hxy.
    assert ((x - y) * (1 - k) = 0) as Hz by lra.
    apply Rmult_integral in Hz. lra. }
  apply vec3_eq; apply Hcomp;
    [apply (f_equal vx) in Heq | apply (f_equal vy) in Heq
     | apply (f_equal vz) in Heq]; exact Heq.
Qed.

(** ** The morph progress driver *)

Lemma targetProgress_cases (ts : TreeMorphState) :
  Scene.targetProgress ts = 0 \/ Scene.targetProgress ts = 1.
Proof. destruct ts; [right | left]; reflexivity. Qed.

Lemma rate_range (d : R) : 0 <= d -> 0 <= Rmin (d * 3.5) 1.0 <= 1.
Proof.
  intros Hd. unfold Rmin. destruct (Rle_dec (d * 3.5) 1.0); lra.
Qed.

Lemma rate_lower (dmin d : R) :
  dmin <= d -> Rmin (dmin * 3.5) 1.0 <= Rmin (d * 3.5) 1.0.
Proof.
  intros Hd. unfold Rmin.
  destruct (Rle_dec (dmin * 3.5) 1.0), (Rle_dec (d * 3.5) 1.0); lra.
Qed.

Lemma useFrame_progress (f : Scene.Frame) (s : Scene.State) :
  Scene.progressRef (Scene.useFrame f s)
  = Scene.easeProgress f (Scene.progressRef s).
Proof.
  unfold Scene.useFrame.
  destruct (Scene.groupMounted f); [destruct (Scene.isDraggingPhoto f) |];
    try reflexivity.
  destruct (Scene.handStep f s); reflexivity.
Qed.

Lemma easeProgress_error (f : Scene.Frame) (p : R) :
  Scene.easeProgress f p - Scene.targetProgress (Scene.treeState f)
  = (1 - Rmin (Scene.delta f * 3.5) 1.0)
    * (p - Scene.targetProgress (Scene.treeState f)).
Proof. unfold Scene.easeProgress. apply lerp_error. Qed.

Lemma easeProgress_range (f : Scene.Frame) (p : R) :
  0 <= Scene.delta f -> 0 <= p <= 1 -> 0 <= Scene.easeProgress f p <= 1.
Proof.
  intros Hd Hp.
  pose proof (rate_range _ Hd) as Hr.
  pose proof (easeProgress_error f p) as He.
  destruct (targetProgress_cases (Scene.treeState f)) as [Ht | Ht];
    rewrite Ht in He; nra.
Qed.

Lemma run_progress_range (fs : list Scene.Frame) : forall s,
  Forall (fun f => 0 <= Scene.delta f) fs ->
  0 <= Scene.progressRef s <= 1 ->
  0 <= Scene.progressRef (Scene.run fs s) <= 1.
Proof.
  induction fs as [| f fs IH]; intros s Hfs Hp; simpl; auto.
  inversion Hfs; subst. apply IH; auto.
  rewrite useFrame_progress. apply easeProgress_range; auto.
Qed.

(** With frame times of at least [dmin] and one target, the distance to
    the target shrinks by the factor [1 - min(3.5 dmin, 1)] per frame. *)
Lemma run_progress_geometric (ts : TreeMorphState) (dmin : R)
    (fs : list Scene.Frame) : forall s,
  0 <= dmin ->
  Forall (fun f => dmin <= Scene.delta f /\ Scene.treeState f = ts) fs ->
  Rabs (Scene.progressRef (Scene.run fs s) - Scene.targetProgress ts)
  <= (1 - Rmin (dmin * 3.5) 1.0) ^ length fs
     * Rabs (Scene.progressRef s - Scene.targetProgress ts).
Proof.
  intros s Hd; revert s.
  induction fs as [| f fs IH]; intros s Hfs; simpl.
  - lra.
  - inversion Hfs as [| f' fs' Hhd Hrest]; subst f' fs'.
    destruct Hhd as [Hf Hts].
    eapply Rle_trans; [apply IH; assumption |].
    rewrite useFrame_progress.
    pose proof (easeProgress_error f (Scene.progressRef s)) as He.
    rewrite Hts in He. rewrite He.
    pose proof (rate_range _ Hd) as Hr0.
    assert (0 <= Scene.delta f) as Hdf by lra.
    pose proof (rate_range _ Hdf) as Hr1.
    pose proof (rate_lower _ _ Hf) as Hr2.
    rewrite Rabs_scale by lra.
    set (q := 1 - Rmin (dmin * 3.5) 1.0) in *.
    assert (0 <= q ^ length fs) as Hq by (apply pow_le; unfold q; lra).
    pose proof (Rabs_pos (Scene.progressRef s - Scene.targetProgress ts)).
    rewrite (Rmult_comm q), Rmult_assoc.
    apply Rmult_le_compat_l; auto.
    apply Rmult_le_compat_r; auto. unfold q; lra.
Qed.

Lemma easeProgress_no_overshoot (f : Scene.Frame) (p : R) :
  0 <= Scene.delta f ->
  let g := Scene.targetProgress (Scene.treeState f) in
  Rmin p g <= Scene.easeProgress f p <= Rmax p g
  /\ Rabs (Scene.easeProgress f p - g) <= Rabs (p - g).
Proof.
  intros Hd g.
  pose proof (rate_range _ Hd) as Hr.
  pose proof (easeProgress_error f p) as He. fold g in He.
  split.
  - unfold Rmin, Rmax. destruct (Rle_dec p g); nra.
  - rewrite He, Rabs_scale by lra.
    pose proof (Rabs_pos (p - g)). nra.
Qed.

Lemma run_app (fs gs : list Scene.Frame) : forall s,
  Scene.run (fs ++ gs) s = Scene.run gs (Scene.run fs s).
Proof. induction fs as [| f fs IH]; intros s; simpl; auto. Qed.

Lemma stalled_progress (n : nat) (f : Scene.Frame) (s : Scene.State) :
  Scene.delta f = 0 ->
  Scene.progressRef (Scene.run (repeat f n) s) = Scene.progressRef s.
Proof.
  intros Hd. revert s. induction n as [| n IH]; intros s; simpl; auto.
  rewrite IH, useFrame_progress. unfold Scene.easeProgress, MathUtils.lerp.
  rewrite Hd. unfold Rmin. destruct (Rle_dec (0 * 3.5) 1.0); lra.
Qed.

(** C2 (as amended).  Starting within [0,1] and with frame times
    [delta >= 0] and one target, the morph progress stays within [0,1]
    after any number of frames, and every further frame leaves it between
    its old value and the target, no farther from the target than before.
    When moreover every frame time is at least some [dmin > 0], the
    progress is within [eps] of the target after [N] frames, [N] depending
    on [dmin] and [eps] only. *)
Theorem morph_progress_eases (ts : TreeMorphState) (dmin eps : R) :
  0 < dmin -> 0 < eps ->
  exists N : nat, forall (fs : list Scene.Frame) (s : Scene.State),
    Forall (fun f => 0 <= Scene.delta f /\ Scene.treeState f = ts) fs ->
    0 <= Scene.progressRef s <= 1 ->
    let g := Scene.targetProgress ts in
    let p := Scene.progressRef (Scene.run fs s) in
    0 <= p <= 1
    /\ (forall f, 0 <= Scene.delta f -> Scene.treeState f = ts ->
        let p' := Scene.progressRef (Scene.useFrame f (Scene.run fs s)) in
        Rmin p g <= p' <= Rmax p g /\ Rabs (p' - g) <= Rabs (p - g))
    /\ (Forall (fun f => dmin <= Scene.delta f) fs ->
        (N <= length fs)%nat -> Rabs (p - g) < eps).
Proof.
  intros Hdmin Heps.
  set (q := 1 - Rmin (dmin * 3.5) 1.0).
  assert (0 <= q < 1) as Hq.
  { unfold q, Rmin. destruct (Rle_dec (dmin * 3.5) 1.0); lra. }
  destruct (pow_lt_1_zero q) with (y := eps) as [N HN]; auto.
  { rewrite Rabs_pos_eq; lra. }
  exists N. intros fs s Hfs Hs g p.
  assert (Forall (fun f => 0 <= Scene.delta f) fs) as Hnn.
  { eapply Forall_impl; [| exact Hfs]. simpl; tauto. }
  split; [apply run_progress_range; auto |].
  split.
  - intros f Hf Hts p'. unfold p'. rewrite useFrame_progress.
    unfold g. rewrite <- Hts. apply easeProgress_no_overshoot; auto.
  - intros Hmin Hlen.
    assert (Forall (fun f => dmin <= Scene.delta f /\ Scene.treeState f = ts) fs)
      as Hboth.
    { rewrite Forall_forall in *. intros f Hin. split; auto.
      apply (Hfs f Hin). }
    pose proof (run_progress_geometric ts dmin fs s (Rlt_le _ _ Hdmin) Hboth)
      as Hgeo.
    fold q in Hgeo. fold g in Hgeo. fold p in Hgeo.
    specialize (HN (length fs) Hlen).
    rewrite Rabs_pos_eq in HN by (apply pow_le; lra).
    assert (Rabs (Scene.progressRef s - g) <= 1) as Hstart.
    { unfold g. destruct (targetProgress_cases ts) as [Ht | Ht]; rewrite Ht;
        unfold Rabs; destruct Rcase_abs; lra. }
    pose proof (Rabs_pos (Scene.progressRef s - g)).
    assert (0 <= q ^ length fs) by (apply pow_le; lra).
    nra.
Qed.

Lemma morph_progress_eases_witness :
  exists N : nat,
    Rabs (Scene.progressRef
            (Scene.run (repeat (Scene.mkFrame TREE_SHAPE false false 0.5 (1/60) true) N)
                       Scene.initial) - 1) < 1/100.
Proof.
  destruct (morph_progress_eases TREE_SHAPE (1/60) (1/100)) as [N HN];
    [lra | lra |].
  exists N.
  set (f := Scene.mkFrame TREE_SHAPE false false 0.5 (1/60) true).
  destruct (HN (repeat f N) Scene.initial) as [_ [_ Hconv]].
  - apply Forall_forall. intros x Hx. apply repeat_spec in Hx. subst x.
    simpl. split; [lra | reflexivity].
  - simpl. lra.
  - apply Hconv.
    + apply Forall_forall. intros x Hx. apply repeat_spec in Hx. subst x.
      simpl. lra.
    + rewrite repeat_length. apply Nat.le_refl.
Defined.

(** C2 as stated fails when frame times may be zero: with [delta = 0] the
    easing fraction is 0, and the progress stays at its initial 0 while
    the target is 1. *)
Lemma morph_progress_stalls_at_zero_delta :
  let f := Scene.mkFrame TREE_SHAPE false false 0.5 0 true in
  0 <= Scene.delta f
  /\ ~ (exists N : nat, forall n, (N <= n)%nat ->
          Rabs (Scene.progressRef (Scene.run (repeat f n) Scene.initial)
                - Scene.targetProgress TREE_SHAPE) < 1/2).
Proof.
  intros f. split; [simpl; lra |].
  intros [N HN]. specialize (HN N (Nat.le_refl N)).
  rewrite stalled_progress in HN by reflexivity.
  unfold Scene.targetProgress in HN. simpl in HN.
  unfold Rabs in HN. destruct Rcase_abs; lra.
Qed.

(** ** Photo drag and the progress easing *)

Lemma run_progress_indep (b b' : bool) (fs : list Scene.Frame) : forall s s',
  Scene.progressRef s = Scene.progressRef s' ->
  Scene.progressRef (Scene.run (map (Scene.withDraggingPhoto b) fs) s)
  = Scene.progressRef (Scene.run (map (Scene.withDraggingPhoto b') fs) s').
Proof.
  induction fs as [| f fs IH]; intros s s' Hp; simpl; auto.
  apply IH. rewrite !useFrame_progress. unfold Scene.easeProgress; simpl.
  now rewrite Hp.
Qed.

(** C9.  A frame handled while a photo is dragged eases the morph
    progress exactly as the same frame without the drag, by
    [lerp(progress, target, min(3.5 delta, 1))]; so does any sequence of
    frames.  With the group mounted, such a frame sets the angular
    velocity to 0 and leaves the rotation alone. *)
Theorem photo_drag_keeps_morph_progress (f : Scene.Frame)
    (fs : list Scene.Frame) (s : Scene.State) :
  Scene.progressRef (Scene.useFrame (Scene.withDraggingPhoto true f) s)
  = MathUtils.lerp (Scene.progressRef s)
                   (Scene.targetProgress (Scene.treeState f))
                   (Rmin (Scene.delta f * 3.5) 1.0)
  /\ Scene.progressRef (Scene.useFrame (Scene.withDraggingPhoto true f) s)
     = Scene.progressRef (Scene.useFrame (Scene.withDraggingPhoto false f) s)
  /\ Scene.progressRef (Scene.run (map (Scene.withDraggingPhoto true) fs) s)
     = Scene.progressRef (Scene.run (map (Scene.withDraggingPhoto false) fs) s)
  /\ (let fm := Scene.mkFrame (Scene.treeState f) true (Scene.isHandActive f)
                              (Scene.handX f) (Scene.delta f) true in
      Scene.angularVelocity (Scene.useFrame fm s) = 0
      /\ Scene.rotationY (Scene.useFrame fm s) = Scene.rotationY s
      /\ Scene.progressRef (Scene.useFrame fm s)
         = Scene.easeProgress f (Scene.progressRef s)).
Proof.
  repeat split.
  - now rewrite useFrame_progress.
  - now rewrite !useFrame_progress.
  - now apply run_progress_indep.
Qed.

(** ** Rotation without input *)

Lemma steadySpeed_value : Scene.steadySpeed = 3 / 88.
Proof.
  unfold Scene.steadySpeed, Scene.idleSpeed, Scene.friction.
  assert (1 - 0.95 * 0.96 = 0.088) as -> by lra. lra.
Qed.

Lemma useFrame_isDraggingScene (f : Scene.Frame) (s : Scene.State) :
  Scene.isDraggingScene (Scene.useFrame f s) = Scene.isDraggingScene s.
Proof.
  unfold Scene.useFrame.
  destruct (Scene.groupMounted f); [destruct (Scene.isDraggingPhoto f) |];
    try reflexivity.
  destruct (Scene.handStep f s); reflexivity.
Qed.

(** The velocity after an idle frame, as a function of the one before. *)
Lemma idle_velocity (f : Scene.Frame) (s : Scene.State) :
  Scene.idle f -> Scene.isDraggingScene s = false ->
  let v2 := Scene.angularVelocity s * Scene.friction in
  Scene.angularVelocity (Scene.useFrame f s)
  = (if Rlt_dec (Rabs v2) Scene.idleSpeed
     then MathUtils.lerp v2 Scene.idleSpeed 0.05 else v2)
  /\ Scene.rotationY (Scene.useFrame f s)
     = Scene.rotationY s
       + Scene.angularVelocity (Scene.useFrame f s) * Scene.delta f.
Proof.
  intros (Hm & Hp & Hh) Hs v2.
  unfold Scene.useFrame, Scene.handStep, Scene.idleStep.
  rewrite Hm, Hp, Hh, Hs. simpl. split; reflexivity.
Qed.

Ltac split_abs :=
  unfold Rabs in *;
  repeat match goal with
         | |- context [Rcase_abs ?x] => destruct (Rcase_abs x)
         | H : context [Rcase_abs ?x] |- _ => destruct (Rcase_abs x)
         end.

Lemma idle_decreases (f : Scene.Frame) (s : Scene.State) :
  Scene.idle f -> Scene.isDraggingScene s = false ->
  Scene.idleSpeed < Rabs (Scene.angularVelocity s) ->
  Rabs (Scene.angularVelocity (Scene.useFrame f s))
  < Rabs (Scene.angularVelocity s).
Proof.
  intros Hf Hs Hv.
  destruct (idle_velocity f s Hf Hs) as [-> _].
  unfold Scene.idleSpeed, Scene.friction, MathUtils.lerp in *.
  set (v := Scene.angularVelocity s) in *.
  destruct (Rlt_dec (Rabs (v * 0.96)) 0.06) as [Hlt | Hge];
    split_abs; lra.
Qed.

Lemma idle_contracts (f : Scene.Frame) (s : Scene.State) :
  Scene.idle f -> Scene.isDraggingScene s = false ->
  Rabs (Scene.angularVelocity (Scene.useFrame f s) - Scene.steadySpeed)
  <= 0.98 * Rabs (Scene.angularVelocity s - Scene.steadySpeed).
Proof.
  intros Hf Hs.
  destruct (idle_velocity f s Hf Hs) as [-> _].
  rewrite steadySpeed_value.
  unfold Scene.idleSpeed, Scene.friction, MathUtils.lerp in *.
  set (v := Scene.angularVelocity s) in *.
  destruct (Rlt_dec (Rabs (v * 0.96)) 0.06) as [Hlt | Hge];
    split_abs; lra.
Qed.

Lemma idle_run_geometric (fs : list Scene.Frame) : forall s,
  Forall Scene.idle fs -> Scene.isDraggingScene s = false ->
  Rabs (Scene.angularVelocity (Scene.run fs s) - Scene.steadySpeed)
  <= 0.98 ^ length fs * Rabs (Scene.angularVelocity s - Scene.steadySpeed).
Proof.
  induction fs as [| f fs IH]; intros s Hfs Hs; simpl.
  - lra.
  - inversion Hfs as [| f' fs' Hf Hrest]; subst f' fs'.
    eapply Rle_trans.
    + apply IH; auto. now rewrite useFrame_isDraggingScene.
    + pose proof (idle_contracts f s Hf Hs).
      assert (0 <= 0.98 ^ length fs) by (apply pow_le; lra).
      nra.
Qed.

Lemma run_isDraggingScene (fs : list Scene.Frame) : forall s,
  Scene.isDraggingScene (Scene.run fs s) = Scene.isDraggingScene s.
Proof.
  induction fs as [| f fs IH]; intros s; simpl; auto.
  now rewrite IH, useFrame_isDraggingScene.
Qed.

Lemma idle_run_converges (s : Scene.State) (eps : R) :
  Scene.isDraggingScene s = false -> 0 < eps ->
  exists N : nat, forall fs, Forall Scene.idle fs -> (N <= length fs)%nat ->
    Rabs (Scene.angularVelocity (Scene.run fs s) - Scene.steadySpeed) < eps.
Proof.
  intros Hs Heps.
  set (A := Rabs (Scene.angularVelocity s - Scene.steadySpeed)).
  assert (0 <= A) as HA by apply Rabs_pos.
  destruct (pow_lt_1_zero 0.98) with (y := eps / (A + 1)) as [N HN].
  { rewrite Rabs_pos_eq; lra. }
  { apply Rdiv_lt_0_compat; lra. }
  exists N. intros fs Hfs Hlen.
  pose proof (idle_run_geometric fs s Hfs Hs) as Hgeo. fold A in Hgeo.
  specialize (HN (length fs) Hlen).
  rewrite Rabs_pos_eq in HN by (apply pow_le; lra).
  assert (0 <= 0.98 ^ length fs) as Hq by (apply pow_le; lra).
  assert (0.98 ^ length fs * (A + 1) < eps) as Hlt.
  { apply (Rmult_lt_compat_r (A + 1)) in HN; [| lra].
    unfold Rdiv in HN. rewrite Rmult_assoc, Rinv_l in HN by lra. lra. }
  nra.
Qed.

Lemma Forall_repeat {A : Type} (P : A -> Prop) (x : A) (n : nat) :
  P x -> Forall P (repeat x n).
Proof.
  intros Hx. apply Forall_forall. intros y Hy.
  apply repeat_spec in Hy. now subst y.
Qed.

(** C7 (as amended).  On frames with no scene drag, no tracked hand and no
    photo drag, the magnitude of the angular velocity strictly decreases
    whenever it exceeds the idle-drift speed 0.06, and the rotation angle
    advances by the new velocity times the frame time.  Over successive
    such frames the velocity approaches [steadySpeed = 3/88], about
    0.034, where friction and the 5% ease toward the idle-drift speed
    cancel: a value strictly between zero and the idle-drift speed. *)
Theorem idle_rotation_settles (s : Scene.State) (eps : R) :
  Scene.isDraggingScene s = false -> 0 < eps ->
  exists N : nat, forall fs, Forall Scene.idle fs ->
    let s1 := Scene.run fs s in
    (forall f, Scene.idle f ->
       let s2 := Scene.useFrame f s1 in
       (Scene.idleSpeed < Rabs (Scene.angularVelocity s1) ->
        Rabs (Scene.angularVelocity s2) < Rabs (Scene.angularVelocity s1))
       /\ Scene.rotationY s2
          = Scene.rotationY s1 + Scene.angularVelocity s2 * Scene.delta f)
    /\ ((N <= length fs)%nat ->
        Rabs (Scene.angularVelocity s1 - Scene.steadySpeed) < eps)
    /\ 0 < Scene.steadySpeed < Scene.idleSpeed.
Proof.
  intros Hs Heps.
  destruct (idle_run_converges s eps Hs Heps) as [N HN].
  exists N. intros fs Hfs s1.
  assert (Scene.isDraggingScene s1 = false) as Hs1.
  { unfold s1. now rewrite run_isDraggingScene. }
  split; [| split].
  - intros f Hf s2. split.
    + intros Hv. now apply idle_decreases.
    + now apply idle_velocity.
  - intros Hlen. now apply HN.
  - rewrite steadySpeed_value. unfold Scene.idleSpeed. lra.
Qed.

Lemma idle_rotation_settles_witness :
  exists N : nat,
    Rabs (Scene.angularVelocity
            (Scene.run (repeat (Scene.mkFrame TREE_SHAPE false false 0.5 (1/60) true) N)
                       Scene.initial) - Scene.steadySpeed) < 1/1000.
Proof.
  destruct (idle_rotation_settles Scene.initial (1/1000)) as [N HN];
    [reflexivity | lra |].
  exists N.
  set (f := Scene.mkFrame TREE_SHAPE false false 0.5 (1/60) true).
  destruct (HN (repeat f N)) as [_ [Hconv _]].
  - apply Forall_repeat. repeat split.
  - apply Hconv. rewrite repeat_length. apply Nat.le_refl.
Defined.

(** C7 as stated fails in its limit: from the initial velocity 0.15 the
    idle frames do not bring the velocity to the idle-drift speed 0.06;
    it ends up more than 0.01 away from it. *)
Lemma idle_rotation_misses_idle_speed :
  let f := Scene.mkFrame TREE_SHAPE false false 0.5 (1/60) true in
  Scene.idle f
  /\ ~ (forall eps, 0 < eps -> exists N : nat, forall n, (N <= n)%nat ->
          Rabs (Scene.angularVelocity (Scene.run (repeat f n) Scene.initial)
                - Scene.idleSpeed) < eps).
Proof.
  intros f. split; [repeat split |].
  intros Hclaim.
  destruct (Hclaim (1/100)) as [N1 H1]; [lra |].
  destruct (idle_run_converges Scene.initial (1/100)) as [N2 H2];
    [reflexivity | lra |].
  set (n := Nat.max N1 N2).
  specialize (H1 n (Nat.le_max_l _ _)).
  specialize (H2 (repeat f n)).
  rewrite repeat_length in H2.
  specialize (H2 (Forall_repeat _ f n (conj eq_refl (conj eq_refl eq_refl)))
                 (Nat.le_max_r _ _)).
  rewrite steadySpeed_value in H2. unfold Scene.idleSpeed in H1.
  split_abs; lra.
Qed.

(** ** The foliage shader *)

Lemma clamp_above (x : R) : 1 <= x -> GLSL.clamp x 0 1 = 1.
Proof.
  intros Hx. unfold GLSL.clamp, Rmin, Rmax.
  destruct (Rle_dec x 0); destruct (Rle_dec _ 1); lra.
Qed.

Lemma clamp_below (x : R) : x <= 0 -> GLSL.clamp x 0 1 = 0.
Proof.
  intros Hx. unfold GLSL.clamp, Rmin, Rmax.
  destruct (Rle_dec x 0); destruct (Rle_dec _ 1); lra.
Qed.

Lemma clamp_inside (x : R) : 0 <= x <= 1 -> GLSL.clamp x 0 1 = x.
Proof.
  intros Hx. unfold GLSL.clamp, Rmin, Rmax.
  destruct (Rle_dec x 0); destruct (Rle_dec _ 1); lra.
Qed.

Lemma clamp_range (x : R) : 0 <= GLSL.clamp x 0 1 <= 1.
Proof.
  unfold GLSL.clamp, Rmin, Rmax.
  destruct (Rle_dec x 0); destruct (Rle_dec _ 1); lra.
Qed.

Lemma blend_inside (p : R) : 0 <= p <= 1 -> Foliage.blend p = p * p * (3 - 2 * p).
Proof.
  intros Hp. unfold Foliage.blend, GLSL.smoothstep.
  replace ((p - 0.0) / (1.0 - 0.0)) with p by lra.
  now rewrite clamp_inside.
Qed.

Lemma blend_full : Foliage.blend 1 = 1.
Proof. rewrite blend_inside; lra. Qed.

Lemma blend_range (p : R) : 0 <= Foliage.blend p <= 1.
Proof.
  unfold Foliage.blend, GLSL.smoothstep.
  pose proof (clamp_range ((p - 0.0) / (1.0 - 0.0))) as Hc.
  set (c := GLSL.clamp _ 0 1) in *.
  assert (0 <= c * c * (3 - 2 * c)) by (apply Rmult_le_pos; nra).
  assert (0 <= (1 - c) * (1 - c) * (1 + 2 * c)) by (apply Rmult_le_pos; nra).
  lra.
Qed.

Lemma explosion_full : Foliage.explosion 1 = 0.
Proof.
  unfold Foliage.explosion, GLSL.smoothstep.
  replace ((1 - 0.8) / (0.0 - 0.8)) with (- (1 / 4)) by lra.
  rewrite (clamp_below (- (1 / 4))) by lra. lra.
Qed.

Lemma fadeIn_full (p : R) : - 0.8 <= p -> Foliage.fadeIn p = 1.
Proof.
  intros Hp. unfold Foliage.fadeIn, GLSL.smoothstep.
  rewrite clamp_above; [lra |].
  replace ((p * 0.5 + 0.5 - 0.0) / (0.1 - 0.0)) with (5 * p + 5) by lra.
  lra.
Qed.

Lemma sumsq_pos (v : vec3) :
  v <> vzero -> 0 < vx v * vx v + vy v * vy v + vz v * vz v.
Proof.
  destruct v as [x y z]; simpl. intros Hv.
  destruct (Req_dec x 0) as [Hx | Hx]; [| nra].
  destruct (Req_dec y 0) as [Hy | Hy]; [| nra].
  destruct (Req_dec z 0) as [Hz | Hz]; [| nra].
  exfalso. apply Hv. unfold vzero. now subst.
Qed.

Lemma vlength_pos (v : vec3) : v <> vzero -> 0 < vlength v.
Proof. intros Hv. apply sqrt_lt_R0. now apply sumsq_pos. Qed.

Lemma vlength_sqr (v : vec3) :
  vlength v * vlength v = vx v * vx v + vy v * vy v + vz v * vz v.
Proof. unfold vlength. apply sqrt_sqrt. nra. Qed.

Lemma vlength_vscale (v : vec3) (k : R) :
  vlength (vscale v k) = Rabs k * vlength v.
Proof.
  unfold vlength, vscale; simpl.
  replace (vx v * k * (vx v * k) + vy v * k * (vy v * k) + vz v * k * (vz v * k))
    with (Rsqr k * (vx v * vx v + vy v * vy v + vz v * vz v))
    by (unfold Rsqr; ring).
  rewrite sqrt_mult; [| apply Rle_0_sqr | nra].
  now rewrite sqrt_Rsqr_abs.
Qed.

Lemma vlength_normalize (v : vec3) :
  v <> vzero -> vlength (GLSL.normalize v) = 1.
Proof.
  intros Hv. pose proof (vlength_pos v Hv) as Hl.
  pose proof (vlength_sqr v) as Hsq.
  unfold GLSL.normalize. set (l := vlength v) in *.
  unfold vlength at 1; simpl.
  replace (vx v / l * (vx v / l) + vy v / l * (vy v / l) + vz v / l * (vz v / l))
    with 1.
  - apply sqrt_1.
  - transitivity ((vx v * vx v + vy v * vy v + vz v * vz v) / (l * l)).
    + rewrite <- Hsq. field. lra.
    + field. lra.
Qed.

Lemma vdistance_offset (a b : vec3) : vdistance (vadd a b) a = vlength b.
Proof.
  unfold vdistance. f_equal. apply vec3_eq; simpl; ring.
Qed.

(** At [uProgress = 1] only the breathing displacement is left. *)
Lemma currentPos_full (uTime : R) (aScatterPos aTreePos : vec3) (aPhase : R) :
  Foliage.currentPos uTime 1 aScatterPos aTreePos aPhase
  = vadd aTreePos
         (vscale (GLSL.normalize aTreePos) (0.3 * sin (uTime * 1.5 + aPhase))).
Proof.
  unfold Foliage.currentPos. rewrite blend_full, explosion_full.
  set (p2 := Foliage.chaosPos _ _ _ _).
  assert (p2 = aTreePos) as ->.
  { unfold p2, Foliage.chaosPos, GLSL.vmix, GLSL.mix.
    apply vec3_eq; simpl; lra. }
  unfold Foliage.breathe. apply vec3_eq; simpl; lra.
Qed.

(** C3 (as amended).  At [uProgress = 1], for a particle whose tree and
    scatter positions are not the origin and for every time [uTime], the
    interpolation gives the tree position and the explosion and chaos
    terms vanish, but the breathing term does not: it is scaled by
    [1.1 - blendFactor], which is 0.1 there.  The particle sits on the ray
    through its tree position, displaced by [0.3 * sin(1.5 uTime +
    aPhase)], hence within 0.3 of the tree position. *)
Theorem full_progress_position (uTime : R) (aScatterPos aTreePos : vec3)
    (aPhase : R) :
  aTreePos <> vzero -> aScatterPos <> vzero ->
  let t := Foliage.blend 1 in
  let p := Foliage.currentPos uTime 1 aScatterPos aTreePos aPhase in
  GLSL.vmix aScatterPos aTreePos t = aTreePos
  /\ Foliage.explosion t = 0
  /\ (1.0 - t) * 250.0 = 0
  /\ Foliage.breathe uTime aPhase t = 1.5 * sin (uTime * 1.5 + aPhase)
  /\ p = vadd aTreePos
              (vscale (GLSL.normalize aTreePos)
                      (0.3 * sin (uTime * 1.5 + aPhase)))
  /\ vdistance p aTreePos = 0.3 * Rabs (sin (uTime * 1.5 + aPhase))
  /\ vdistance p aTreePos <= 0.3.
Proof.
  intros Htree Hscat t p. unfold t, p. rewrite blend_full.
  assert (vdistance (Foliage.currentPos uTime 1 aScatterPos aTreePos aPhase)
                    aTreePos
          = 0.3 * Rabs (sin (uTime * 1.5 + aPhase))) as Hd.
  { rewrite currentPos_full, vdistance_offset, vlength_vscale,
      vlength_normalize by assumption.
    rewrite Rabs_scale by lra. ring. }
  repeat split.
  - unfold GLSL.vmix, GLSL.mix. apply vec3_eq; simpl; ring.
  - apply explosion_full.
  - lra.
  - unfold Foliage.breathe. lra.
  - apply currentPos_full.
  - exact Hd.
  - rewrite Hd. pose proof (SIN_bound (uTime * 1.5 + aPhase)).
    split_abs; lra.
Qed.

Lemma vec3_neq_x (a b : vec3) : vx a <> vx b -> a <> b.
Proof. intros Hx Hab. apply Hx. now rewrite Hab. Qed.

Lemma full_progress_position_witness :
  vdistance (Foliage.currentPos 0 1 (Vec3 0 4500 0) (Vec3 4000 0 0) 0)
            (Vec3 4000 0 0) <= 0.3.
Proof.
  apply (full_progress_position 0 (Vec3 0 4500 0) (Vec3 4000 0 0) 0).
  - apply vec3_neq_x. simpl. lra.
  - intros Heq. apply (f_equal vy) in Heq. simpl in Heq. lra.
Defined.

(** C3 as stated fails: at [uProgress = 1] the breathing term is not
    zero.  The particle with tree position (1,0,0) and phase pi/2 is at
    (1.3,0,0) at time 0. *)
Lemma full_progress_breathing_remains :
  Foliage.currentPos 0 1 (Vec3 1 0 0) (Vec3 1 0 0) (PI / 2) = Vec3 1.3 0 0
  /\ Foliage.currentPos 0 1 (Vec3 1 0 0) (Vec3 1 0 0) (PI / 2) <> Vec3 1 0 0
  /\ Foliage.breathe 0 (PI / 2) (Foliage.blend 1) = 1.5.
Proof.
  assert (sin (0 * 1.5 + PI / 2) = 1) as Hsin.
  { replace (0 * 1.5 + PI / 2) with (PI / 2) by lra. apply sin_PI2. }
  assert (Foliage.currentPos 0 1 (Vec3 1 0 0) (Vec3 1 0 0) (PI / 2)
          = Vec3 1.3 0 0) as Hp.
  { rewrite currentPos_full, Hsin.
    unfold GLSL.normalize, vlength; simpl.
    replace (1 * 1 + 0 * 0 + 0 * 0) with 1 by ring. rewrite sqrt_1.
    apply vec3_eq; simpl; lra. }
  split; [exact Hp | split].
  - rewrite Hp. apply vec3_neq_x. simpl. lra.
  - rewrite blend_full. unfold Foliage.breathe. rewrite Hsin. lra.
Qed.

Lemma blend_increasing (p1 p2 : R) :
  0 <= p1 -> p1 < p2 -> p2 <= 1 -> Foliage.blend p1 < Foliage.blend p2.
Proof.
  intros H1 H12 H2. rewrite !blend_inside by lra.
  assert (p1 * p1 <= p1) by nra.
  assert (p2 * p2 <= p2) by nra.
  assert (p1 * p2 <= p1) by nra.
  assert (0 < (p2 - p1)
              * (3 * (p1 + p2) - 2 * (p1 * p1 + p1 * p2 + p2 * p2))) as Hpos.
  { apply Rmult_lt_0_compat; lra. }
  nra.
Qed.

Lemma vAlpha_value (p : R) :
  - 0.8 <= p -> Foliage.vAlpha p = 0.75 + 0.25 * (1 - Foliage.blend p).
Proof.
  intros Hp. unfold Foliage.vAlpha. rewrite fadeIn_full by assumption. lra.
Qed.

(** C8 (as amended).  For progress values in [0,1], whatever the particle
    and the time, the alpha is [0.75 + 0.25 * (1 - blendFactor)]: it
    strictly increases as the blend factor decreases toward 0, and lies
    in [0.75, 1].  The fade-in factor is 1 on the whole range, so there is
    no fade-in from zero: at the initial [uProgress = 0] the alpha is 1,
    and after the first frame it is still at least 0.75. *)
Theorem alpha_rises_toward_scatter (p1 p2 : R) :
  0 <= p1 <= 1 -> 0 <= p2 <= 1 ->
  Foliage.vAlpha p1 = 0.75 + 0.25 * (1 - Foliage.blend p1)
  /\ (Foliage.blend p1 < Foliage.blend p2 ->
      Foliage.vAlpha p2 < Foliage.vAlpha p1)
  /\ (p1 < p2 -> Foliage.vAlpha p2 < Foliage.vAlpha p1)
  /\ 0.75 <= Foliage.vAlpha p1 <= 1
  /\ Foliage.fadeIn p1 = 1
  /\ Foliage.vAlpha (Foliage.uProgress Foliage.initialUniforms) = 1
  /\ (forall elapsedTime,
        0.75 <= Foliage.vAlpha
                  (Foliage.uProgress
                     (Foliage.useFrame true elapsedTime p1
                                       Foliage.initialUniforms))).
Proof.
  intros H1 H2.
  pose proof (blend_range p1) as Hb1.
  rewrite !vAlpha_value by lra.
  repeat split; try lra.
  - intros Hlt. pose proof (blend_increasing p1 p2). lra.
  - apply fadeIn_full. lra.
  - simpl. rewrite vAlpha_value by lra. rewrite blend_inside by lra. lra.
  - intros elapsedTime. simpl. unfold MathUtils.lerp.
    rewrite vAlpha_value by lra.
    pose proof (blend_range ((1 - 0.1) * 0 + 0.1 * p1)). lra.
Qed.

Lemma alpha_rises_toward_scatter_witness :
  Foliage.vAlpha 1 < Foliage.vAlpha 0.
Proof.
  apply (alpha_rises_toward_scatter 0 1); lra.
Defined.

(** C8 as stated fails in its second half: at the initial progress the
    alpha is 1, not zero. *)
Lemma initial_alpha_is_not_zero :
  Foliage.vAlpha (Foliage.uProgress Foliage.initialUniforms) = 1
  /\ Foliage.vAlpha (Foliage.uProgress Foliage.initialUniforms) <> 0.
Proof.
  assert (Foliage.vAlpha (Foliage.uProgress Foliage.initialUniforms) = 1) as H.
  { simpl. rewrite vAlpha_value by lra. rewrite blend_inside by lra. lra. }
  split; [exact H | rewrite H; lra].
Qed.

(** ** The gesture classifier *)

Lemma nth_error_in_range {A : Type} (l : list A) (i : nat) :
  (i < length l)%nat -> exists x, nth_error l i = Some x.
Proof.
  intros Hi. destruct (nth_error l i) eqn:E; [eauto |].
  apply nth_error_None in E. lia.
Qed.

Lemma classify_spec (n : nat) :
  ((3 <= n)%nat -> Gesture.classify n = Some SCATTERED)
  /\ ((n <= 1)%nat -> Gesture.classify n = Some TREE_SHAPE)
  /\ (n = 2%nat -> Gesture.classify n = None).
Proof.
  unfold Gesture.classify.
  destruct (Nat.leb_spec 3 n), (Nat.leb_spec n 1);
    repeat split; intros; try reflexivity; lia.
Qed.

Lemma countTip_step (landmarks : list Gesture.Landmark)
    (wrist tip : Gesture.Landmark) (r : R) (n i : nat) :
  nth_error landmarks i = Some tip ->
  exists n', Gesture.countTip landmarks wrist r (Some n) i = Some n'
             /\ (n <= n' <= S n)%nat.
Proof.
  intros Hi. unfold Gesture.countTip. rewrite Hi.
  destruct (Rgt_dec _ _); eexists; split; try reflexivity; lia.
Qed.

(** A hand with all 21 landmarks yields a count between 0 and 5. *)
Lemma extendedFingers_total (landmarks : list Gesture.Landmark)
    (wrist : Gesture.Landmark) :
  (21 <= length landmarks)%nat ->
  exists n, Gesture.extendedFingers landmarks wrist = Some n /\ (n <= 5)%nat.
Proof.
  intros Hlen.
  destruct (nth_error_in_range landmarks 9) as [palm H9]; [lia |].
  destruct (nth_error_in_range landmarks 4) as [thumb H4]; [lia |].
  destruct (nth_error_in_range landmarks 8) as [t8 H8]; [lia |].
  destruct (nth_error_in_range landmarks 12) as [t12 H12]; [lia |].
  destruct (nth_error_in_range landmarks 16) as [t16 H16]; [lia |].
  destruct (nth_error_in_range landmarks 20) as [t20 H20]; [lia |].
  unfold Gesture.extendedFingers. rewrite H9, H4.
  set (r := Gesture.getDistance wrist palm).
  unfold Gesture.tips. cbn [fold_left].
  destruct (countTip_step landmarks wrist t8 (r) 0 8 H8) as (n1 & -> & B1).
  destruct (countTip_step landmarks wrist t12 (r) n1 12 H12) as (n2 & -> & B2).
  destruct (countTip_step landmarks wrist t16 (r) n2 16 H16) as (n3 & -> & B3).
  destruct (countTip_step landmarks wrist t20 (r) n3 20 H20) as (n4 & -> & B4).
  destruct (Rgt_dec _ _); eexists; split; try reflexivity; lia.
Qed.

(** C1.  A frame whose first hand has its 21 landmarks makes the hand
    active, publishes the wrist's x, and with the extended-finger count
    [n] (at most 5) emits SCATTERED when [n >= 3], TREE_SHAPE when
    [n <= 1] and nothing when [n = 2], in which case the tree state stays
    what it was.  A frame without a hand emits nothing and makes the hand
    inactive. *)
Theorem gesture_frame_classified (results : Gesture.Results)
    (refs : Gesture.Refs) :
  (forall landmarks rest,
      Gesture.multiHandLandmarks results = Some (landmarks :: rest) ->
      (21 <= length landmarks)%nat ->
      exists wrist n,
        nth_error landmarks 0 = Some wrist
        /\ Gesture.extendedFingers landmarks wrist = Some n
        /\ (n <= 5)%nat
        /\ (exists emitted,
              Gesture.onResults results refs
              = Gesture.Returned (Gesture.mkRefs true (Gesture.lx wrist)) emitted
              /\ ((3 <= n)%nat -> emitted = Some SCATTERED)
              /\ ((n <= 1)%nat -> emitted = Some TREE_SHAPE)
              /\ (n = 2%nat ->
                  emitted = None
                  /\ forall treeState,
                      Gesture.handleGestureStateChange treeState emitted
                      = treeState)))
  /\ (Gesture.multiHandLandmarks results = None
      \/ Gesture.multiHandLandmarks results = Some [] ->
      Gesture.onResults results refs
      = Gesture.Returned (Gesture.mkRefs false (Gesture.handXRef refs)) None).
Proof.
  split.
  - intros landmarks rest Hm Hlen.
    destruct (nth_error_in_range landmarks 0) as [wrist H0]; [lia |].
    destruct (extendedFingers_total landmarks wrist Hlen) as (n & Hn & Hle).
    exists wrist, n. repeat split; auto.
    exists (Gesture.classify n).
    destruct (classify_spec n) as (Hs & Ht & Hd).
    repeat split; auto.
    + unfold Gesture.onResults. now rewrite Hm, H0, Hn.
    + intros treeState. now rewrite Hd.
  - intros [Hm | Hm]; unfold Gesture.onResults; now rewrite Hm.
Qed.

Lemma getDistance_vertical (x a b z z' : R) :
  Gesture.getDistance (Gesture.mkLandmark x a z) (Gesture.mkLandmark x b z')
  = Rabs (a - b).
Proof.
  unfold Gesture.getDistance; simpl.
  replace ((x - x) * ((x - x) * 1) + (a - b) * ((a - b) * 1))
    with (Rsqr (a - b)) by (unfold Rsqr; ring).
  apply sqrt_Rsqr_abs.
Qed.

Lemma openHand_count :
  Gesture.extendedFingers Gesture.openHand (Gesture.mkLandmark 0.5 0 0)
  = Some 5%nat.
Proof.
  unfold Gesture.extendedFingers, Gesture.openHand, Gesture.tips,
    Gesture.countTip.
  cbn [seq map nth_error fold_left].
  rewrite !getDistance_vertical.
  replace (Rabs (2 - 0)) with 2 by (split_abs; lra).
  replace (Rabs (0 - 1)) with 1 by (split_abs; lra).
  repeat (destruct (Rgt_dec _ _) as [_ | Hn]; [| exfalso; apply Hn; lra]).
  reflexivity.
Qed.

Lemma gesture_frame_classified_witness :
  Gesture.onResults (Gesture.mkResults (Some [Gesture.openHand]))
                    (Gesture.mkRefs false 0)
  = Gesture.Returned (Gesture.mkRefs true 0.5) (Some SCATTERED).
Proof.
  destruct (gesture_frame_classified
              (Gesture.mkResults (Some [Gesture.openHand]))
              (Gesture.mkRefs false 0)) as [Hhand _].
  destruct (Hhand Gesture.openHand [] eq_refl)
    as (wrist & n & H0 & Hn & _ & emitted & Hres & Hscattered & _).
  - simpl. lia.
  - injection H0 as <-.
    rewrite openHand_count in Hn. injection Hn as <-.
    rewrite Hres, Hscattered by lia. reflexivity.
Defined.

(** ** Dragging an ornament *)

Section PhotoItemProperties.
Context `{ThreeJS}.
Import PhotoOrnaments.

Lemma pointerDown_held (w : World) (x y : R) (s : Item) (m : Mesh) :
  mesh s = Some m ->
  let s1 := handlePointerDown w x y s in
  held (dragPlane (drag s1)) (dragOffset (drag s1)) s1
  /\ data s1 = data s /\ calls s1 = calls s ++ [OnDragStart]
  /\ url s1 = url s
  /\ dragPlane (drag s1)
     = setFromNormalAndCoplanarPoint
         (vnormalize (vsub (cameraPosition w) (getWorldPosition w m)))
         (getWorldPosition w m).
Proof.
  intros Hm. unfold handlePointerDown, held. rewrite Hm.
  destruct (intersectPlane _ _); simpl; eauto 10.
Qed.

Lemma pointerDown_offset (w : World) (x y : R) (s : Item) (m : Mesh)
    (q : vec3) :
  mesh s = Some m ->
  let s1 := handlePointerDown w x y s in
  intersectPlane (ray w) (dragPlane (drag s1)) = Some q ->
  dragOffset (drag s1) = vsub (getWorldPosition w m) q.
Proof.
  intros Hm. unfold handlePointerDown. rewrite Hm. cbv zeta.
  set (pl := setFromNormalAndCoplanarPoint _ _).
  destruct (intersectPlane (ray w) pl) eqn:E; simpl; rewrite E; intros Hq.
  - now injection Hq as ->.
  - discriminate.
Qed.

Lemma passive_held (plane : Plane) (off : vec3) (e : Event) (s : Item) :
  passive e -> held plane off s -> held plane off (step e s).
Proof.
  intros He (Hd & [m Hm] & Hp & Ho). unfold held.
  destruct e; simpl in *; try contradiction.
  - unfold handlePointerMove. rewrite Hd, Hm. simpl.
    destruct (parent w); [destruct (intersectPlane _ _) |]; simpl; eauto.
  - eauto.
  - eauto.
  - eauto.
  - unfold useFrame. rewrite Hm. simpl. eauto.
Qed.

Lemma misses_held (plane : Plane) (off : vec3) (e : Event) (s : Item) :
  misses plane e -> held plane off s ->
  held plane off (step e s) /\ data (step e s) = data s.
Proof.
  intros He Hh. split.
  - apply passive_held; auto. destruct e; simpl in *; auto.
  - destruct Hh as (Hd & [m Hm] & Hp & Ho).
    destruct e; simpl in *; try contradiction; try reflexivity.
    + unfold handlePointerMove. rewrite Hd, Hm, Hp. simpl.
      destruct He as [-> | ->]; [reflexivity |].
      destruct (parent w); reflexivity.
    + unfold useFrame. rewrite Hm. reflexivity.
Qed.

Lemma run_passive_held (plane : Plane) (off : vec3) (es : list Event) :
  forall s, Forall passive es -> held plane off s -> held plane off (run es s).
Proof.
  induction es as [| e es IH]; intros s Hes Hh; simpl; auto.
  inversion Hes; subst. apply IH; auto. now apply passive_held.
Qed.

Lemma run_misses_held (plane : Plane) (off : vec3) (es : list Event) :
  forall s, Forall (misses plane) es -> held plane off s ->
  held plane off (run es s) /\ data (run es s) = data s.
Proof.
  induction es as [| e es IH]; intros s Hes Hh; simpl; auto.
  inversion Hes as [| e' es' He Hrest]; subst e' es'.
  destruct (misses_held plane off e s He Hh) as [Hh' Hd'].
  destruct (IH (step e s) Hrest Hh') as [Hh'' Hd''].
  split; auto. now rewrite Hd''.
Qed.

Lemma run_events_app (es es' : list Event) : forall s,
  run (es ++ es') s = run es' (run es s).
Proof. induction es as [| e es IH]; intros s; simpl; auto. Qed.

Lemma hit_sets_tree (plane : Plane) (off : vec3) (w : World) (par : Object3D)
    (p : vec3) (s : Item) :
  held plane off s -> parent w = Some par ->
  intersectPlane (ray w) plane = Some p ->
  held plane off (handlePointerMove w s)
  /\ tree (data (handlePointerMove w s)) = worldToLocal par (vadd p off).
Proof.
  intros (Hd & [m Hm] & Hp & Ho) Hpar Hhit.
  unfold handlePointerMove, held. rewrite Hd, Hm, Hpar, Hp, Hhit, Ho.
  simpl. eauto 10.
Qed.

(** One frame of a mounted item that is not dragged. *)
Lemma idle_frame_eases (t progress g : R) (s : Item) (m : Mesh) :
  mesh s = Some m -> isDragging s = false ->
  let target := targetPos t progress false (data s) in
  exists m', mesh (useFrame t progress g s) = Some m'
    /\ position m' = vlerp (position m) target 0.08
    /\ vsub (position m') target = vscale (vsub (position m) target) 0.92
    /\ (position m <> target -> position m' <> target)
    /\ data (useFrame t progress g s) = data s.
Proof.
  intros Hm Hd target. unfold useFrame. rewrite Hm, Hd. simpl.
  eexists; split; [reflexivity |]. simpl. fold target.
  clearbody target.
  repeat split; auto.
  - rewrite vlerp_error. f_equal. lra.
  - intros Hne. apply vlerp_short; [lra | assumption].
Qed.

Lemma useFrame_keeps (t progress g : R) (s : Item) :
  data (useFrame t progress g s) = data s
  /\ isDragging (useFrame t progress g s) = isDragging s.
Proof. unfold useFrame. destruct (mesh s); auto. Qed.

(** Frames leave the data, and so the tree position, alone. *)
Lemma ticks_keep (es : list Event) : forall (s : Item) (m : Mesh),
  Forall isTick es -> mesh s = Some m -> isDragging s = false ->
  data (run es s) = data s /\ isDragging (run es s) = false
  /\ exists m', mesh (run es s) = Some m'.
Proof.
  induction es as [| e es IH]; intros s m Hes Hm Hd; simpl; eauto.
  inversion Hes as [| e' es' He Hrest]; subst e' es'.
  destruct e; simpl in He; try contradiction. simpl.
  destruct (idle_frame_eases t progress globalScale s m Hm Hd)
    as (m1 & Hm1 & _ & _ & _ & Hdata).
  destruct (useFrame_keeps t progress globalScale s) as [_ Hdrag].
  rewrite Hd in Hdrag.
  destruct (IH _ m1 Hrest Hm1 Hdrag) as (Hdata' & Hdrag' & Hmesh').
  rewrite Hdata', Hdata. auto.
Qed.

(** The target in terms of the stored tree position. *)
Lemma targetPos_formula (t progress : R) (d : DualPosition) :
  let e := MathUtils.smoothstep progress 0 1 in
  targetPos t progress false d
  = Vec3 (MathUtils.lerp (vx (scatter d)) (vx (tree d)) e
          + sin (t * 0.4 + phaseOffset d) * 150.0 * (1.0 - e)
          + cos (t * 0.5 + phaseOffset d) * (15.0 + (1.0 - e) * 60.0) * 0.5)
         (MathUtils.lerp (vy (scatter d)) (vy (tree d)) e
          + cos (t * 0.3 + phaseOffset d) * 150.0 * (1.0 - e)
          + sin (t * 0.8 + phaseOffset d) * (15.0 + (1.0 - e) * 60.0))
         (MathUtils.lerp (vz (scatter d)) (vz (tree d)) e
          + sin (t * 0.5 + phaseOffset d * 2.0) * 150.0 * (1.0 - e)).
Proof.
  intros e. unfold targetPos. fold e. apply vec3_eq; simpl; lra.
Qed.

Lemma targetPos_full (t progress : R) (d : DualPosition) :
  1 <= progress ->
  let q := targetPos t progress false d in
  Rabs (vx q - vx (tree d)) <= 7.5
  /\ Rabs (vy q - vy (tree d)) <= 15
  /\ vz q = vz (tree d).
Proof.
  intros Hp q. unfold q. rewrite targetPos_formula.
  assert (MathUtils.smoothstep progress 0 1 = 1) as ->.
  { unfold MathUtils.smoothstep.
    destruct (Rle_dec progress 0); [lra |].
    destruct (Rle_dec 1 progress); [reflexivity | lra]. }
  unfold MathUtils.lerp. simpl.
  pose proof (SIN_bound (t * 0.8 + phaseOffset d)) as Hs.
  pose proof (COS_bound (t * 0.5 + phaseOffset d)) as Hc.
  repeat split; try lra; split_abs; lra.
Qed.

(** Frames at full progress bring a released ornament to its tree
    position, up to the float of 7.5 along x and 15 along y. *)
Lemma full_ticks_settle (es : list Event) : forall (s : Item) (m : Mesh),
  Forall fullTick es -> mesh s = Some m -> isDragging s = false ->
  exists m', mesh (run es s) = Some m'
    /\ Rabs (vx (position m') - vx (tree (data s)))
       <= 0.92 ^ length es * Rabs (vx (position m) - vx (tree (data s)))
          + 7.5 * (1 - 0.92 ^ length es)
    /\ Rabs (vy (position m') - vy (tree (data s)))
       <= 0.92 ^ length es * Rabs (vy (position m) - vy (tree (data s)))
          + 15 * (1 - 0.92 ^ length es)
    /\ vz (position m') - vz (tree (data s))
       = 0.92 ^ length es * (vz (position m) - vz (tree (data s))).
Proof.
  induction es as [| e es IH]; intros s m Hes Hm Hd.
  - simpl. exists m. split; [assumption |]. repeat split; lra.
  - inversion Hes as [| e' es' He Hrest]; subst e' es'.
    destruct e; simpl in He; try contradiction.
    cbn [run step length].
    destruct (idle_frame_eases t progress globalScale s m Hm Hd)
      as (m1 & Hm1 & Hpos & _ & _ & Hdata).
    destruct (useFrame_keeps t progress globalScale s) as [_ Hdrag].
    rewrite Hd in Hdrag.
    destruct (IH _ m1 Hrest Hm1 Hdrag) as (m' & Hm' & Hx & Hy & Hz).
    rewrite Hdata in Hx, Hy, Hz.
    destruct (targetPos_full t progress (data s) He) as (Tx & Ty & Tz).
    set (q := targetPos t progress false (data s)) in *.
    set (r := tree (data s)) in *.
    assert (0 <= 0.92 ^ length es) as HQ by (apply pow_le; lra).
    set (Q := 0.92 ^ length es) in *.
    rewrite Hpos in Hx, Hy, Hz. unfold vlerp in Hx, Hy, Hz.
    cbn [vx vy vz] in Hx, Hy, Hz.
    exists m'. split; [assumption |].
    assert (Rabs (vx (position m) + (vx q - vx (position m)) * 0.08 - vx r)
            <= 0.92 * Rabs (vx (position m) - vx r) + 0.6) as Hx1
      by (split_abs; lra).
    assert (Rabs (vy (position m) + (vy q - vy (position m)) * 0.08 - vy r)
            <= 0.92 * Rabs (vy (position m) - vy r) + 1.2) as Hy1
      by (split_abs; lra).
    change (0.92 ^ S (length es)) with (0.92 * Q).
    repeat split.
    + eapply Rle_trans; [exact Hx |].
      pose proof (Rabs_pos (vx (position m) - vx r)). nra.
    + eapply Rle_trans; [exact Hy |].
      pose proof (Rabs_pos (vy (position m) - vy r)). nra.
    + rewrite Hz, Tz. nra.
Qed.

(** C4.  A drag of a mounted ornament: pointer-down, then events that
    neither start nor end a drag, among them a pointer-move whose ray
    meets the drag plane at [p] while the parent is [par], followed only
    by moves that miss the plane (and frames, hovers, double-clicks), then
    pointer-up.  Afterwards the stored tree position is [rest]: [p] plus
    the grab offset recorded at pointer-down, taken into the parent's
    frame, and the drag is over.  Through any number of later frames the
    tree position stays [rest]; the target of each frame is the blend of
    the scatter position and [rest] by the eased progress, plus the chaos
    and float offsets; and each frame moves the rendered position 8% of
    the way to its target, so 92% of the gap remains and the target is
    not reached in one frame unless the position was there already.  At
    full progress the rendered position so approaches [rest] itself: its
    distance to [rest] shrinks by 0.92 per frame, up to the float of at
    most 7.5 along x and 15 along y. *)
Theorem drag_moves_rest_position (s0 : Item) (m0 : Mesh) (wd : World)
    (clientX clientY : R) (before after : list Event) (wm : World)
    (par : Object3D) (p : vec3) :
  mesh s0 = Some m0 ->
  let s1 := handlePointerDown wd clientX clientY s0 in
  Forall passive before ->
  parent wm = Some par ->
  intersectPlane (ray wm) (dragPlane (drag s1)) = Some p ->
  Forall (misses (dragPlane (drag s1))) after ->
  let s2 := run ([PointerDown wd clientX clientY] ++ before
                 ++ [PointerMove wm] ++ after ++ [PointerUp]) s0 in
  let rest := worldToLocal par (vadd p (dragOffset (drag s1))) in
  tree (data s2) = rest
  /\ isDragging s2 = false
  /\ (forall q, intersectPlane (ray wd) (dragPlane (drag s1)) = Some q ->
      dragOffset (drag s1) = vsub (getWorldPosition wd m0) q)
  /\ exists m2, mesh s2 = Some m2
     /\ (forall t progress g,
          let s3 := useFrame t progress g s2 in
          let target := targetPos t progress false (data s2) in
          exists m3, mesh s3 = Some m3
            /\ position m3 = vlerp (position m2) target 0.08
            /\ vsub (position m3) target
               = vscale (vsub (position m2) target) 0.92
            /\ (position m2 <> target -> position m3 <> target)
            /\ data s3 = data s2)
     /\ (forall frames, Forall isTick frames ->
          let s3 := run frames s2 in
          tree (data s3) = rest /\ data s3 = data s2 /\ isDragging s3 = false
          /\ exists m3, mesh s3 = Some m3
             /\ forall t progress g,
                  let target := targetPos t progress false (data s3) in
                  let e := MathUtils.smoothstep progress 0 1 in
                  let ph := phaseOffset (data s2) in
                  target
                  = Vec3 (MathUtils.lerp (vx (scatter (data s2))) (vx rest) e
                          + sin (t * 0.4 + ph) * 150.0 * (1.0 - e)
                          + cos (t * 0.5 + ph) * (15.0 + (1.0 - e) * 60.0) * 0.5)
                         (MathUtils.lerp (vy (scatter (data s2))) (vy rest) e
                          + cos (t * 0.3 + ph) * 150.0 * (1.0 - e)
                          + sin (t * 0.8 + ph) * (15.0 + (1.0 - e) * 60.0))
                         (MathUtils.lerp (vz (scatter (data s2))) (vz rest) e
                          + sin (t * 0.5 + ph * 2.0) * 150.0 * (1.0 - e))
                  /\ exists m4, mesh (useFrame t progress g s3) = Some m4
                       /\ position m4 = vlerp (position m3) target 0.08
                       /\ vsub (position m4) target
                          = vscale (vsub (position m3) target) 0.92
                       /\ (position m3 <> target -> position m4 <> target))
     /\ (forall frames, Forall fullTick frames ->
          exists m3, mesh (run frames s2) = Some m3
            /\ Rabs (vx (position m3) - vx rest)
               <= 0.92 ^ length frames * Rabs (vx (position m2) - vx rest)
                  + 7.5 * (1 - 0.92 ^ length frames)
            /\ Rabs (vy (position m3) - vy rest)
               <= 0.92 ^ length frames * Rabs (vy (position m2) - vy rest)
                  + 15 * (1 - 0.92 ^ length frames)
            /\ vz (position m3) - vz rest
               = 0.92 ^ length frames * (vz (position m2) - vz rest)).
Proof.
  intros Hm s1 Hbefore Hpar Hhit Hafter s2 rest.
  destruct (pointerDown_held wd clientX clientY s0 m0 Hm) as (Hh1 & _).
  fold s1 in Hh1.
  set (plane := dragPlane (drag s1)) in *.
  set (off := dragOffset (drag s1)) in *.
  pose proof (run_passive_held plane off before s1 Hbefore Hh1) as Hh2.
  destruct (hit_sets_tree plane off wm par p _ Hh2 Hpar Hhit) as [Hh3 Htree].
  destruct (run_misses_held plane off after _ Hafter Hh3) as [Hh4 Hdata].
  assert (s2 = handlePointerUp
                 (run after (handlePointerMove wm (run before s1)))) as Hs2.
  { unfold s2. simpl. rewrite run_events_app. simpl.
    rewrite run_events_app. reflexivity. }
  set (s' := run after (handlePointerMove wm (run before s1))) in *.
  destruct Hh4 as (Hd & [m Hmesh] & _ & _).
  assert (data s2 = data s' /\ isDragging s2 = false /\ mesh s2 = Some m)
    as (Hd2 & Hi2 & Hm2).
  { rewrite Hs2. unfold handlePointerUp. rewrite Hd. simpl. auto. }
  assert (tree (data s2) = rest) as Hrest by now rewrite Hd2, Hdata.
  split; [exact Hrest |].
  split; [assumption |].
  split.
  - intros q Hq. now apply (pointerDown_offset wd clientX clientY s0 m0 q Hm).
  - exists m. split; [assumption |]. split; [| split].
    + intros t progress g. now apply idle_frame_eases.
    + intros frames Hframes s3.
      destruct (ticks_keep frames s2 m Hframes Hm2 Hi2)
        as (Hdata3 & Hdrag3 & [m3 Hm3]).
      fold s3 in Hdata3, Hdrag3, Hm3.
      split; [now rewrite Hdata3 |]. split; [assumption |].
      split; [assumption |].
      exists m3. split; [assumption |].
      intros t progress g target e ph. split.
      * unfold target, e, ph. rewrite Hdata3, targetPos_formula, Hrest.
        reflexivity.
      * destruct (idle_frame_eases t progress g s3 m3 Hm3 Hdrag3)
          as (m4 & Hm4 & Hp4 & He4 & Hn4 & _).
        exists m4. auto.
    + intros frames Hframes.
      destruct (full_ticks_settle frames s2 m Hframes Hm2 Hi2)
        as (m3 & Hm3 & Hx & Hy & Hz).
      rewrite Hrest in Hx, Hy, Hz. exists m3. auto.
Qed.

(** C6 (as amended).  A double-click calls the photo-click callback
    exactly once, with the ornament's identifier, whether a drag is
    active or not, and changes nothing else; no other event, in
    particular none of a drag gesture, calls it. *)
Theorem double_click_calls_back (e : Event) (s : Item) :
  calls (handleDoubleClick s) = calls s ++ [OnClick (url s)]
  /\ isDragging (handleDoubleClick s) = isDragging s
  /\ data (handleDoubleClick s) = data s
  /\ clickCalls (calls (step e s))
     = match e with
       | DoubleClick => clickCalls (calls s) ++ [url s]
       | _ => clickCalls (calls s)
       end.
Proof.
  repeat split.
  assert (forall l c, clickCalls (l ++ [c])
                      = clickCalls l ++ clickCalls [c]) as Happ.
  { intros l c. unfold clickCalls. now rewrite flat_map_app. }
  destruct e; simpl; try reflexivity.
  - unfold handlePointerDown. destruct (mesh s); [| reflexivity].
    destruct (intersectPlane _ _); simpl; rewrite Happ; simpl;
      now rewrite app_nil_r.
  - unfold handlePointerMove.
    destruct (isDragging s), (mesh s), (parent w); simpl; try reflexivity.
    destruct (intersectPlane _ _); reflexivity.
  - unfold handlePointerUp. destruct (isDragging s); simpl; [| reflexivity].
    rewrite Happ; simpl; now rewrite app_nil_r.
  - now rewrite Happ.
  - unfold useFrame. destruct (mesh s); reflexivity.
Qed.

End PhotoItemProperties.

(** *** The sample drag *)

Section SampleDrag.
Import PhotoOrnaments.

Lemma sample_vnormalize_z : vnormalize (Vec3 0 0 1) = Vec3 0 0 1.
Proof.
  unfold vnormalize, vlength; simpl.
  replace (0 * 0 + 0 * 0 + 1 * 1) with 1 by ring. rewrite sqrt_1.
  destruct (Req_dec_T 1 0) as [Habs | _]; [lra |].
  unfold vscale; simpl. rewrite Rinv_1. f_equal; ring.
Qed.

Lemma sample_ray_hits (x y : R) :
  Sample.intersect (Sample.mkRay (Vec3 x y 1) (Vec3 0 0 (-1)))
                   (mkPlane (Vec3 0 0 1) 0)
  = Some (Vec3 x y 0).
Proof.
  unfold Sample.intersect, Sample.distanceToPlane, vdot; simpl.
  destruct (Req_dec_T (0 * 0 + 0 * 0 + 1 * -1) 0) as [Habs | _]; [lra |].
  set (t := - (x * 0 + y * 0 + 1 * 1 + 0) / (0 * 0 + 0 * 0 + 1 * -1)).
  assert (t = 1) as Ht by (unfold t; field; lra).
  destruct (Rle_dec 0 t) as [_ | Hn]; [| lra].
  rewrite Ht. unfold vadd, vscale; simpl. f_equal. f_equal; ring.
Qed.

Lemma sample_dragPlane (x y cx cy : R) :
  dragPlane
    (drag (handlePointerDown (H := Sample.three) (pointerAt x y) cx cy sampleItem))
  = mkPlane (Vec3 0 0 1) 0.
Proof.
  destruct (pointerDown_held (H := Sample.three) (pointerAt x y) cx cy
              sampleItem (mkMesh vzero 1 1) eq_refl) as (_ & _ & _ & _ & ->).
  assert (getWorldPosition (H := Sample.three) (pointerAt x y)
            (mkMesh vzero 1 1) = vzero) as ->.
  { unfold getWorldPosition; simpl. apply vec3_eq; simpl; ring. }
  assert (vsub (cameraPosition (pointerAt x y)) vzero = Vec3 0 0 1) as ->.
  { apply vec3_eq; simpl; ring. }
  rewrite sample_vnormalize_z.
  unfold setFromNormalAndCoplanarPoint, vdot; simpl. f_equal. ring.
Qed.

Lemma drag_moves_rest_position_witness :
  let s2 := run (H := Sample.three)
                [PointerDown (pointerAt 1 2) 0 0; Tick 0 1 1.5;
                 PointerMove (pointerAt 4 6); Tick 0.1 1 1.5; PointerUp]
                sampleItem in
  tree (data s2) = Vec3 3 4 0 /\ isDragging s2 = false.
Proof.
  assert (forall x y,
            intersectPlane (ThreeJS := Sample.three) (ray (pointerAt x y))
              (dragPlane
                 (drag (handlePointerDown (H := Sample.three)
                          (pointerAt 1 2) 0 0 sampleItem)))
            = Some (Vec3 x y 0)) as Hhit.
  { intros x y. rewrite sample_dragPlane. apply sample_ray_hits. }
  destruct (drag_moves_rest_position (H := Sample.three)
              sampleItem (mkMesh vzero 1 1) (pointerAt 1 2) 0 0
              [Tick 0 1 1.5] [Tick 0.1 1 1.5] (pointerAt 4 6)
              vzero (Vec3 4 6 0))
    as (Htree & Hdrag & Hoff & _).
  - reflexivity.
  - repeat constructor.
  - reflexivity.
  - apply Hhit.
  - repeat constructor.
  - split; [| exact Hdrag].
    simpl in Htree |- *. rewrite Htree.
    rewrite (Hoff (Vec3 1 2 0) (Hhit 1 2)).
    apply vec3_eq; simpl; ring.
Defined.

(** C6 as stated fails in its first half: with the sample ornament's
    drag active after a pointer-down, a double-click calls the callback. *)
Lemma double_click_during_drag_calls_back :
  let s1 := handlePointerDown (H := Sample.three) (pointerAt 1 2) 0 0
                              sampleItem in
  isDragging s1 = true
  /\ calls (handleDoubleClick s1) = [OnDragStart; OnClick "photo.png"]
  /\ clickCalls (calls (handleDoubleClick s1)) = ["photo.png"%string].
Proof.
  intros s1.
  destruct (pointerDown_held (H := Sample.three) (pointerAt 1 2) 0 0
              sampleItem (mkMesh vzero 1 1) eq_refl)
    as ((Hd & _) & _ & Hcalls & Hurl & _).
  fold s1 in Hd, Hcalls, Hurl.
  assert (calls (handleDoubleClick s1) = [OnDragStart; OnClick "photo.png"])
    as Hc.
  { unfold handleDoubleClick; simpl. rewrite Hcalls, Hurl. reflexivity. }
  split; [exact Hd | split; [exact Hc |]].
  rewrite Hc. reflexivity.
Qed.

End SampleDrag.

(** ** The ornament collection *)

Section PhotoList.
Import PhotoOrnaments.

Lemma includes_In (l : list string) (x : string) :
  includes l x = true <-> In x l.
Proof.
  unfold includes. rewrite existsb_exists. split.
  - intros (y & Hy & Heq). apply String.eqb_eq in Heq. now subst.
  - intros Hx. exists x. split; [assumption | apply String.eqb_refl].
Qed.

Lemma includes_not_In (l : list string) (x : string) :
  includes l x = false <-> ~ In x l.
Proof.
  rewrite <- includes_In. destruct (includes l x); split; congruence.
Qed.

Lemma newItems_urls (draws : nat -> Draw) (l : list string) : forall k,
  map purl (newItems draws k l) = l.
Proof. induction l as [| u l IH]; intros k; simpl; [| rewrite IH]; auto. Qed.

Lemma filter_all {A : Type} (f : A -> bool) (l : list A) :
  (forall x, In x l -> f x = true) -> filter f l = l.
Proof.
  induction l as [| a l IH]; intros Hf; simpl; auto.
  rewrite (Hf a (or_introl eq_refl)), IH; auto.
  intros x Hx. apply Hf. now right.
Qed.

Lemma filter_none {A : Type} (f : A -> bool) (l : list A) :
  (forall x, In x l -> f x = false) -> filter f l = [].
Proof.
  induction l as [| a l IH]; intros Hf; simpl; auto.
  rewrite (Hf a (or_introl eq_refl)), IH; auto.
  intros x Hx. apply Hf. now right.
Qed.

Lemma ornaments_app (u : string) (l l' : list Photo) :
  ornaments u (l ++ l') = (ornaments u l + ornaments u l')%nat.
Proof. unfold ornaments. now rewrite filter_app, length_app. Qed.

Lemma ornaments_absent (u : string) (l : list Photo) :
  ~ In u (map purl l) -> ornaments u l = 0%nat.
Proof.
  intros Hu. unfold ornaments. rewrite filter_none; auto.
  intros p Hp. apply String.eqb_neq. intros Heq. apply Hu.
  rewrite <- Heq. now apply in_map.
Qed.

Lemma ornaments_present (u : string) (l : list Photo) :
  In u (map purl l) -> (0 < ornaments u l)%nat.
Proof.
  induction l as [| p l IH]; simpl; [tauto |].
  intros [Hp | Hin]; unfold ornaments in *; simpl.
  - rewrite Hp, String.eqb_refl. simpl. lia.
  - destruct (String.eqb (purl p) u); simpl; auto. lia.
Qed.

Lemma ornaments_unique (u : string) (l : list Photo) :
  NoDup (map purl l) -> In u (map purl l) -> ornaments u l = 1%nat.
Proof.
  induction l as [| p l IH]; simpl; [tauto |].
  intros Hnd Hin. inversion Hnd as [| x xs Hnotin Hnd']; subst x xs.
  change (p :: l) with ([p] ++ l). rewrite ornaments_app.
  unfold ornaments at 1; simpl.
  destruct (String.eqb_spec (purl p) u) as [Heq | Hneq]; simpl.
  - rewrite ornaments_absent; [reflexivity | now rewrite <- Heq].
  - destruct Hin as [Hp | Hin]; [contradiction |]. now apply IH.
Qed.

Lemma ornaments_kept (images : list string) (u : string) (prev : list Photo) :
  In u images ->
  ornaments u (filter (fun p => includes images (purl p)) prev)
  = ornaments u prev.
Proof.
  intros Hu. unfold ornaments.
  induction prev as [| p prev IH]; simpl; auto.
  destruct (String.eqb_spec (purl p) u) as [Heq | Hneq].
  - assert (includes images (purl p) = true) as ->
      by (apply includes_In; now rewrite Heq).
    simpl. rewrite Heq, String.eqb_refl. simpl. now rewrite IH.
  - destruct (includes images (purl p)); simpl; auto.
    destruct (String.eqb_spec (purl p) u); [contradiction | auto].
Qed.

Lemma NoDup_urls_filter (f : Photo -> bool) (l : list Photo) :
  NoDup (map purl l) -> NoDup (map purl (filter f l)).
Proof.
  induction l as [| p l IH]; simpl; auto.
  intros Hnd. inversion Hnd as [| x xs Hnotin Hnd']; subst x xs.
  destruct (f p); simpl; auto.
  constructor; auto.
  intros Hin. apply Hnotin.
  apply in_map_iff in Hin as (q & Hq & Hqin).
  apply filter_In in Hqin as [Hqin _].
  rewrite <- Hq. now apply in_map.
Qed.

Lemma setPhotoData_urls (draws : nat -> Draw) (images : list string)
    (prev : list Photo) :
  map purl (setPhotoData draws images prev)
  = map purl (filter (fun p => includes images (purl p)) prev)
    ++ filter (fun u => negb (includes (map purl prev) u)) images.
Proof. unfold setPhotoData. now rewrite map_app, newItems_urls. Qed.

(** After the update the collection has exactly the identifiers of
    [images]. *)
Lemma setPhotoData_sync (draws : nat -> Draw) (images : list string)
    (prev : list Photo) (u : string) :
  In u (map purl (setPhotoData draws images prev)) <-> In u images.
Proof.
  rewrite setPhotoData_urls, in_app_iff, in_map_iff, filter_In. split.
  - intros [(p & Hp & Hin) | [Hin _]]; auto.
    apply filter_In in Hin as [_ Hinc]. apply includes_In in Hinc.
    now rewrite <- Hp.
  - intros Hu. destruct (includes (map purl prev) u) eqn:E.
    + left. apply includes_In, in_map_iff in E as (p & Hp & Hin).
      exists p. split; auto. apply filter_In. split; auto.
      apply includes_In. now rewrite Hp.
    + right. split; auto.
Qed.

(** A collection with exactly the identifiers of [images] is left as it
    is. *)
Lemma setPhotoData_fixed (draws : nat -> Draw) (images : list string)
    (prev : list Photo) :
  (forall u, In u images <-> In u (map purl prev)) ->
  setPhotoData draws images prev = prev.
Proof.
  intros Hsync. unfold setPhotoData.
  rewrite (filter_none _ images), filter_all; simpl.
  - apply app_nil_r.
  - intros p Hp. apply includes_In, Hsync. now apply in_map.
  - intros u Hu. apply negb_false_iff, includes_In, Hsync, Hu.
Qed.

(** C5 (as amended).  For every update of the collection from [images]:
    an identifier that already has ornaments gets no new one; when
    neither the list nor the collection repeats an identifier, the new
    collection has exactly one ornament per identifier of the list;
    running the update again after appending an identifier that is
    already in the list, or after deleting an identifier that has no
    ornament, leaves the collection as it is; and every ornament whose
    identifier is in the list is kept as it is, in order, ahead of the
    new ones. *)
Theorem photo_list_update (draws : nat -> Draw) (images : list string)
    (prev : list Photo) :
  let next := setPhotoData draws images prev in
  (forall u, In u images -> In u (map purl prev) ->
     ornaments u next = ornaments u prev)
  /\ (NoDup images -> NoDup (map purl prev) ->
      NoDup (map purl next) /\ forall u, In u images -> ornaments u next = 1%nat)
  /\ (forall draws' u, In u images ->
        setPhotoData draws' (handleFileUpload [u] images) next = next)
  /\ (forall draws' x, ornaments x next = 0%nat ->
        setPhotoData draws' (handleDeletePhoto x images) next = next)
  /\ (forall p, In p prev -> In (purl p) images -> In p next)
  /\ (exists items,
        next = filter (fun p => includes images (purl p)) prev ++ items
        /\ Forall (fun p => ~ In (purl p) (map purl prev)) items).
Proof.
  intros next.
  assert (forall u, In u (map purl next) <-> In u images) as Hsync
    by (intros u; apply setPhotoData_sync).
  repeat split.
  - intros u Hu Hprev. unfold next, setPhotoData.
    rewrite ornaments_app, ornaments_kept by assumption.
    rewrite (ornaments_absent u (newItems _ _ _)); [lia |].
    rewrite newItems_urls, filter_In. intros [_ Hneg].
    apply negb_true_iff, includes_not_In in Hneg. contradiction.
  - unfold next. rewrite setPhotoData_urls.
    apply NoDup_app.
    + now apply NoDup_urls_filter.
    + now apply NoDup_filter.
    + intros u Hin Hnew.
      apply filter_In in Hnew as [_ Hneg].
      apply negb_true_iff, includes_not_In in Hneg. apply Hneg.
      apply in_map_iff in Hin as (p & Hp & Hin).
      apply filter_In in Hin as [Hin _]. rewrite <- Hp. now apply in_map.
  - intros u Hu. apply ornaments_unique; [| now apply Hsync].
    unfold next. rewrite setPhotoData_urls.
    apply NoDup_app.
    + now apply NoDup_urls_filter.
    + now apply NoDup_filter.
    + intros v Hin Hnew.
      apply filter_In in Hnew as [_ Hneg].
      apply negb_true_iff, includes_not_In in Hneg. apply Hneg.
      apply in_map_iff in Hin as (p & Hp & Hin).
      apply filter_In in Hin as [Hin _]. rewrite <- Hp. now apply in_map.
  - intros draws' u Hu. apply setPhotoData_fixed.
    intros v. rewrite Hsync. unfold handleFileUpload.
    rewrite in_app_iff. simpl. split; [| tauto].
    intros [Hv | [<- | []]]; assumption.
  - intros draws' x Hx. apply setPhotoData_fixed.
    intros v. rewrite Hsync. unfold handleDeletePhoto. rewrite filter_In.
    split; [tauto |]. intros Hv. split; auto.
    apply negb_true_iff, String.eqb_neq. intros ->.
    apply Hsync, ornaments_present in Hv. fold next in Hv. lia.
  - intros p Hp Hin. unfold next, setPhotoData.
    apply in_or_app. left. apply filter_In. split; auto.
    now apply includes_In.
  - exists (newItems draws 0
              (filter (fun u => negb (includes (map purl prev) u)) images)).
    split; [reflexivity |].
    apply Forall_forall. intros p Hp.
    apply (in_map purl) in Hp. rewrite newItems_urls in Hp.
    apply filter_In in Hp as [_ Hneg].
    now apply negb_true_iff, includes_not_In in Hneg.
Qed.

Lemma photo_list_update_witness :
  let d := mkDual (Vec3 3 4 0) (Vec3 0 20 0) 0 0 110 in
  let draws := fun _ : nat => mkDraw (Vec3 2200 0 0) (Vec3 0 4500 0) (1 / 2) in
  setPhotoData draws ["a.png"; "b.png"; "a.png"]%string [mkPhoto "a.png" d]
  = [mkPhoto "a.png" d; newItem (draws 0%nat) "b.png"]
  /\ ornaments "a.png"
       (setPhotoData draws ["a.png"; "b.png"; "a.png"]%string
                     [mkPhoto "a.png" d]) = 1%nat.
Proof.
  intros d draws. split; [reflexivity |].
  destruct (photo_list_update draws ["a.png"; "b.png"; "a.png"]%string
              [mkPhoto "a.png" d]) as (Hsame & _).
  rewrite Hsame; [reflexivity | simpl; auto | simpl; auto].
Defined.

(** C5 as stated fails in "exactly one ornament per distinct
    identifier": an identifier that is new to the collection and occurs
    twice in the list gets two ornaments. *)
Lemma repeated_new_source_gets_two_ornaments :
  let draws := fun _ : nat => mkDraw (Vec3 2200 0 0) (Vec3 0 4500 0) (1 / 2) in
  ornaments "a.png" (setPhotoData draws ["a.png"; "a.png"]%string []) = 2%nat
  /\ map purl (setPhotoData draws ["a.png"; "a.png"]%string [])
     = ["a.png"; "a.png"]%string.
Proof. split; reflexivity. Qed.

End PhotoList.

(** ** The dust field *)

Lemma vlength_vsub_sym (a b : vec3) : vlength (vsub a b) = vlength (vsub b a).
Proof. unfold vlength, vsub; simpl. f_equal. ring. Qed.

Section GoldDustProperties.
Context `{ThreeJS}.
Import GoldDust.

Lemma useFrame_mounted (f : Frame) (s : State) :
  meshMounted f = true ->
  let plane := mkPlane (vnormalize (cameraPosition f)) (constant (mousePlane s)) in
  let target := match intersectPlane (ray f) plane with
                | Some p => p
                | None => Vec3 0 0 0
                end in
  useFrame f s
  = mkState (elapsedTime f) (vlerp (mousePos3D s) target 0.1) 1.0 plane
            (vlerp (mousePos3D s) target 0.1).
Proof. intros Hm. unfold useFrame. rewrite Hm. reflexivity. Qed.

Lemma useFrame_keeps_hover (f : Frame) (s : State) :
  uHover s = 1.0 /\ uMouse s = mousePos3D s ->
  uHover (useFrame f s) = 1.0
  /\ uMouse (useFrame f s) = mousePos3D (useFrame f s).
Proof.
  intros Hs. destruct (meshMounted f) eqn:Hm.
  - rewrite useFrame_mounted by assumption. simpl. auto.
  - unfold useFrame. rewrite Hm. exact Hs.
Qed.

Lemma run_keeps_hover (fs : list Frame) : forall s,
  uHover s = 1.0 /\ uMouse s = mousePos3D s ->
  uHover (run fs s) = 1.0 /\ uMouse (run fs s) = mousePos3D (run fs s).
Proof.
  induction fs as [| f fs IH]; intros s Hs; simpl; auto.
  apply IH. now apply useFrame_keeps_hover.
Qed.

Lemma dustPos_pulled (uTime : R) (uMouse : vec3) (position : vec3) (aPhase : R) :
  let pos := drift uTime position aPhase in
  let d := vdistance pos uMouse in
  0 < d < attractRadius ->
  let k := (1.0 - d / attractRadius) ^ 2 * 300.0 / d in
  dustPos uTime uMouse 1.0 position aPhase
  = vadd pos (vscale (vsub uMouse pos) k)
  /\ 0 < k.
Proof.
  intros pos d Hd k. split.
  - unfold dustPos. fold pos. fold d.
    destruct (Rlt_dec d attractRadius) as [_ | Hn]; [| lra].
    destruct (Rgt_dec 1.0 0.5) as [_ | Hn]; [| lra].
    unfold GLSL.normalize.
    replace (vlength (vsub uMouse pos)) with d
      by (unfold d, vdistance; apply vlength_vsub_sym).
    unfold k. apply vec3_eq; simpl; field; lra.
  - unfold k, attractRadius in *.
    assert (0 < 1.0 - d / 1200.0) as Hs by lra.
    apply Rdiv_lt_0_compat; [| lra].
    apply Rmult_lt_0_compat; [| lra].
    simpl. nra.
Qed.

(** C10.  A frame with the mesh mounted sets [uHover] to 1 and moves the
    smoothed pointer position a tenth of the way toward the point where
    the ray meets the plane, or toward the origin when it does not meet
    it: the test is on the vector, not on the result of the
    intersection.  No later frame resets [uHover], and [uMouse] stays the
    smoothed position.  With [uHover = 1] the shader moves every
    particle at a distance [d] with [0 < d < 1200] from [uMouse] along
    the direction to [uMouse] by a positive amount. *)
Theorem dust_attraction_stays_on (f : Frame) (fs : list Frame) (s : State) :
  meshMounted f = true ->
  let s1 := useFrame f s in
  let s2 := run fs s1 in
  uHover s1 = 1.0
  /\ uMouse s1
     = vlerp (mousePos3D s)
             (match intersectPlane (ray f) (mousePlane s1) with
              | Some p => p
              | None => Vec3 0 0 0
              end) 0.1
  /\ uHover s2 = 1.0
  /\ uMouse s2 = mousePos3D s2
  /\ forall position aPhase,
       let pos := drift (uTime s2) position aPhase in
       let d := vdistance pos (uMouse s2) in
       0 < d < attractRadius ->
       let k := (1.0 - d / attractRadius) ^ 2 * 300.0 / d in
       dustPos (uTime s2) (uMouse s2) (uHover s2) position aPhase
       = vadd pos (vscale (vsub (uMouse s2) pos) k)
       /\ 0 < k.
Proof.
  intros Hm s1 s2.
  assert (uHover s1 = 1.0 /\ uMouse s1 = mousePos3D s1) as Hs1.
  { unfold s1. rewrite useFrame_mounted by assumption. simpl. auto. }
  destruct (run_keeps_hover fs s1 Hs1) as [Hh2 Hm2]. fold s2 in Hh2, Hm2.
  split; [apply Hs1 |].
  split; [unfold s1; rewrite useFrame_mounted by assumption; reflexivity |].
  split; [assumption |]. split; [assumption |].
  intros position aPhase pos d Hd k. rewrite Hh2.
  now apply dustPos_pulled.
Qed.

End GoldDustProperties.

Lemma dust_attraction_stays_on_witness :
  let f := GoldDust.mkFrame (H := Sample.three) true 0 (Vec3 0 0 1)
             (Sample.mkRay (Vec3 0 0 5) (Vec3 1 0 0)) in
  GoldDust.uHover
    (GoldDust.run (H := Sample.three) [f; f] (GoldDust.useFrame f GoldDust.initial))
  = 1.0.
Proof.
  intros f.
  apply (dust_attraction_stays_on (H := Sample.three) f [f; f] GoldDust.initial).
  reflexivity.
Defined.

(* ================================================================== *)
(** * Further properties of the components *)

(** ** Dragging the scene *)

Lemma drag_frame (f : Scene.Frame) (s : Scene.State) :
  Scene.isDraggingScene s = true -> 0 <= Scene.delta f ->
  let s' := Scene.useFrame f s in
  Scene.isDraggingScene s' = true
  /\ Scene.lastMouseX s' = Scene.lastMouseX s
  /\ (0 <= Scene.angularVelocity s ->
      0 <= Scene.angularVelocity s' /\ Scene.rotationY s <= Scene.rotationY s')
  /\ (Scene.angularVelocity s <= 0 ->
      Scene.angularVelocity s' <= 0 /\ Scene.rotationY s' <= Scene.rotationY s).
Proof.
  intros Hs Hd.
  unfold Scene.useFrame, Scene.handStep, Scene.idleStep, Scene.friction.
  rewrite Hs.
  destruct (Scene.groupMounted f); [destruct (Scene.isDraggingPhoto f) |];
    simpl; repeat split; auto; try lra; intros; nra.
Qed.

Lemma drag_move (x : R) (s : Scene.State) :
  Scene.isDraggingScene s = true ->
  let s' := ScenePointer.handlePointerMove false true x s in
  Scene.isDraggingScene s' = true
  /\ Scene.lastMouseX s' = x
  /\ Scene.angularVelocity s' = (x - Scene.lastMouseX s) * 0.05
  /\ Scene.rotationY s' = Scene.rotationY s + (x - Scene.lastMouseX s) * 0.005.
Proof.
  intros Hs. unfold ScenePointer.handlePointerMove. rewrite Hs. simpl. auto.
Qed.

Lemma dragRun_pointer (h : list ScenePointer.DragStep) : forall s,
  Scene.isDraggingScene s = true ->
  let s' := ScenePointer.dragRun h s in
  Scene.isDraggingScene s' = true
  /\ Scene.lastMouseX s' = ScenePointer.lastX (Scene.lastMouseX s) h
  /\ (ScenePointer.rightward (Scene.lastMouseX s) h ->
      0 <= Scene.angularVelocity s ->
      Scene.rotationY s
      + (ScenePointer.lastX (Scene.lastMouseX s) h - Scene.lastMouseX s) * 0.005
      <= Scene.rotationY s'
      /\ 0 <= Scene.angularVelocity s')
  /\ (ScenePointer.leftward (Scene.lastMouseX s) h ->
      Scene.angularVelocity s <= 0 ->
      Scene.rotationY s'
      <= Scene.rotationY s
         + (ScenePointer.lastX (Scene.lastMouseX s) h - Scene.lastMouseX s) * 0.005
      /\ Scene.angularVelocity s' <= 0).
Proof.
  induction h as [| d h IH]; intros s Hs.
  - simpl. repeat split; auto; lra.
  - cbn [ScenePointer.dragRun]. cbv zeta.
    destruct d as [x | f]; cbn [ScenePointer.dragStep ScenePointer.lastX
                                 ScenePointer.rightward ScenePointer.leftward].
    + destruct (drag_move x s Hs) as (Hs1 & Hl1 & Hv1 & Hr1).
      destruct (IH _ Hs1) as (Hs2 & Hl2 & Hright & Hleft).
      rewrite Hl1 in Hl2, Hright, Hleft. rewrite Hv1, Hr1 in *.
      split; [exact Hs2 |]. split; [exact Hl2 |]. split.
      * intros [Hle Hrw] Hv.
        destruct (Hright Hrw) as [Hrot Hvel]; [nra |].
        split; [lra | exact Hvel].
      * intros [Hle Hlw] Hv.
        destruct (Hleft Hlw) as [Hrot Hvel]; [nra |].
        split; [lra | exact Hvel].
    + assert (Scene.isDraggingScene (Scene.useFrame f s) = true) as Hs1
        by now rewrite useFrame_isDraggingScene.
      assert (Scene.lastMouseX (Scene.useFrame f s) = Scene.lastMouseX s)
        as Hl1.
      { unfold Scene.useFrame.
        destruct (Scene.groupMounted f); [destruct (Scene.isDraggingPhoto f) |];
          try reflexivity.
        destruct (Scene.handStep f s); reflexivity. }
      destruct (IH _ Hs1) as (Hs2 & Hl2 & Hright & Hleft).
      rewrite Hl1 in Hl2, Hright, Hleft.
      split; [exact Hs2 |]. split; [exact Hl2 |]. split.
      * intros [Hd Hrw] Hv.
        destruct (drag_frame f s Hs Hd) as (_ & _ & Hpos & _).
        destruct (Hpos Hv) as [Hv1 Hr1].
        destruct (Hright Hrw Hv1) as [Hrot Hvel].
        split; [lra | exact Hvel].
      * intros [Hd Hlw] Hv.
        destruct (drag_frame f s Hs Hd) as (_ & _ & _ & Hneg).
        destruct (Hneg Hv) as [Hv1 Hr1].
        destruct (Hleft Hlw Hv1) as [Hrot Hvel].
        split; [lra | exact Hvel].
Qed.

(** X1.  A scene drag (no photo dragged, group mounted) with frames
    running in between: after the pointer-down at [x0] and any history
    of pointer moves and frames, the scene is still being dragged and
    remembers the last pointer position.  If the pointer never moved
    left (and no frame time is negative), the group has turned by at
    least 0.005 times the pointer's travel and its velocity is not
    negative; if it never moved right, by at most that (negative)
    amount, with a velocity that is not positive. *)
Theorem scene_drag_follows_pointer (x0 : R)
    (h : list ScenePointer.DragStep) (s : Scene.State) :
  let s1 := ScenePointer.handlePointerDown false x0 s in
  let s2 := ScenePointer.dragRun h s1 in
  Scene.isDraggingScene s2 = true
  /\ Scene.lastMouseX s2 = ScenePointer.lastX x0 h
  /\ Scene.angularVelocity s1 = 0
  /\ (ScenePointer.rightward x0 h ->
      Scene.rotationY s + (ScenePointer.lastX x0 h - x0) * 0.005
      <= Scene.rotationY s2
      /\ 0 <= Scene.angularVelocity s2)
  /\ (ScenePointer.leftward x0 h ->
      Scene.rotationY s2
      <= Scene.rotationY s + (ScenePointer.lastX x0 h - x0) * 0.005
      /\ Scene.angularVelocity s2 <= 0).
Proof.
  intros s1 s2.
  destruct (dragRun_pointer h s1 eq_refl) as (Hs & Hl & Hright & Hleft).
  fold s2 in Hs, Hl, Hright, Hleft. simpl in Hl, Hright, Hleft.
  repeat split; auto.
  - destruct Hright as [Hr _]; auto; lra.
  - destruct Hright as [_ Hv]; auto; lra.
  - destruct Hleft as [Hr _]; auto; lra.
  - destruct Hleft as [_ Hv]; auto; lra.
Qed.

Lemma scene_drag_follows_pointer_witness :
  let f := Scene.mkFrame TREE_SHAPE false false 0.5 (1 / 60) true in
  let h := [ScenePointer.MoveTo 100; ScenePointer.FrameOf f;
            ScenePointer.MoveTo 200] in
  Scene.rotationY Scene.initial + (200 - 0) * 0.005
  <= Scene.rotationY
       (ScenePointer.dragRun h
          (ScenePointer.handlePointerDown false 0 Scene.initial)).
Proof.
  intros f h.
  apply (scene_drag_follows_pointer 0 h Scene.initial).
  simpl. lra.
Defined.

(** X2.  While a photo is dragged and the scene is not, no pointer event
    on the scene plane changes anything: no scene drag starts, and
    rotation and velocity stay as they are. *)
Theorem photo_drag_blocks_scene_drag (es : list ScenePointer.Event)
    (s : Scene.State) :
  Forall ScenePointer.duringPhotoDrag es ->
  Scene.isDraggingScene s = false ->
  ScenePointer.run es s = s.
Proof.
  revert s. induction es as [| e es IH]; intros s Hes Hs; simpl; auto.
  inversion Hes as [| e' es' He Hrest]; subst e' es'.
  assert (ScenePointer.step e s = s) as ->; [| now apply IH].
  destruct e as [b x | | b g x]; simpl in *.
  - now rewrite He.
  - destruct s; simpl in *. now subst.
  - unfold ScenePointer.handlePointerMove. now rewrite Hs.
Qed.

Lemma photo_drag_blocks_scene_drag_witness :
  ScenePointer.run
    [ScenePointer.Down true 10; ScenePointer.Move true true 250;
     ScenePointer.Up]
    Scene.initial
  = Scene.initial.
Proof.
  apply photo_drag_blocks_scene_drag; [| reflexivity].
  repeat constructor.
Defined.

(** ** Rotation under a tracked hand, and the idle drift *)

Lemma hand_frame (f : Scene.Frame) (s : Scene.State) :
  Scene.groupMounted f = true -> Scene.isDraggingPhoto f = false ->
  Scene.isHandActive f = true -> Scene.isDraggingScene s = false ->
  Scene.angularVelocity (Scene.useFrame f s)
  = (Scene.angularVelocity s + (Scene.handX f - Scene.lastHandX s) * 18.0)
    * 0.96
  /\ Scene.lastHandX (Scene.useFrame f s) = Scene.handX f
  /\ Scene.isDraggingScene (Scene.useFrame f s) = false.
Proof.
  intros Hm Hp Hh Hs.
  unfold Scene.useFrame, Scene.handStep, Scene.idleStep, Scene.friction.
  rewrite Hm, Hp, Hh, Hs. simpl. auto.
Qed.

Lemma hand_still_frames (f : Scene.Frame) (n : nat) : forall s,
  Scene.groupMounted f = true -> Scene.isDraggingPhoto f = false ->
  Scene.isHandActive f = true -> Scene.isDraggingScene s = false ->
  Scene.lastHandX s = Scene.handX f ->
  Scene.angularVelocity (Scene.run (repeat f n) s)
  = 0.96 ^ n * Scene.angularVelocity s.
Proof.
  induction n as [| n IH]; intros s Hm Hp Hh Hs Hl; simpl.
  - lra.
  - destruct (hand_frame f s Hm Hp Hh Hs) as (Hv & Hl' & Hs').
    rewrite IH by assumption. rewrite Hv, Hl. lra.
Qed.

(** X3.  With a hand tracked and held at one x position (no photo or
    scene drag), the first frame adds 18 times the hand's displacement
    to the velocity, and from then on only friction acts: after [n + 1]
    frames the velocity is [0.96^(n+1)] times that sum.  There is no
    idle drift here, so the velocity tends to zero. *)
Theorem hand_still_rotation_decays (f : Scene.Frame) (s : Scene.State) :
  Scene.groupMounted f = true -> Scene.isDraggingPhoto f = false ->
  Scene.isHandActive f = true -> Scene.isDraggingScene s = false ->
  let v0 := Scene.angularVelocity s
            + (Scene.handX f - Scene.lastHandX s) * 18.0 in
  (forall n, Scene.angularVelocity (Scene.run (repeat f (S n)) s)
             = 0.96 ^ S n * v0)
  /\ (forall eps, 0 < eps -> exists N : nat, forall n, (N <= n)%nat ->
        Rabs (Scene.angularVelocity (Scene.run (repeat f (S n)) s)) < eps).
Proof.
  intros Hm Hp Hh Hs v0.
  assert (forall n, Scene.angularVelocity (Scene.run (repeat f (S n)) s)
                    = 0.96 ^ S n * v0) as Hform.
  { intros n. simpl repeat. simpl Scene.run.
    destruct (hand_frame f s Hm Hp Hh Hs) as (Hv & Hl & Hs').
    rewrite hand_still_frames by assumption. rewrite Hv. fold v0.
    simpl. lra. }
  split; [exact Hform |].
  intros eps Heps.
  destruct (pow_lt_1_zero 0.96) with (y := eps / (Rabs v0 + 1)) as [N HN].
  { rewrite Rabs_pos_eq; lra. }
  { pose proof (Rabs_pos v0). apply Rdiv_lt_0_compat; lra. }
  exists N. intros n Hn. rewrite Hform.
  assert (N <= S n)%nat as Hn' by lia.
  specialize (HN (S n) Hn').
  rewrite Rabs_scale by (apply pow_le; lra).
  rewrite Rabs_pos_eq in HN by (apply pow_le; lra).
  pose proof (Rabs_pos v0) as Hv0.
  assert (0 <= 0.96 ^ S n) as Hq by (apply pow_le; lra).
  assert (0.96 ^ S n * (Rabs v0 + 1) < eps) as Hlt.
  { apply (Rmult_lt_compat_r (Rabs v0 + 1)) in HN; [| lra].
    unfold Rdiv in HN. rewrite Rmult_assoc, Rinv_l in HN by lra. lra. }
  nra.
Qed.

Lemma hand_still_rotation_decays_witness :
  let f := Scene.mkFrame TREE_SHAPE false true 0.75 (1 / 60) true in
  Scene.angularVelocity (Scene.run (repeat f 2) Scene.initial)
  = 0.96 ^ 2 * (0.15 + (0.75 - 0.5) * 18.0).
Proof.
  intros f.
  destruct (hand_still_rotation_decays f Scene.initial) as [Hform _];
    try reflexivity.
  exact (Hform 1%nat).
Defined.

Lemma idle_keeps_drift (f : Scene.Frame) (s : Scene.State) :
  Scene.idle f -> Scene.isDraggingScene s = false ->
  0 <= Scene.angularVelocity s < Scene.idleSpeed ->
  0 < Scene.angularVelocity (Scene.useFrame f s) < Scene.idleSpeed.
Proof.
  intros Hf Hs Hv.
  destruct (idle_velocity f s Hf Hs) as [-> _].
  unfold Scene.idleSpeed, Scene.friction, MathUtils.lerp in *.
  set (v := Scene.angularVelocity s) in *.
  destruct (Rlt_dec (Rabs (v * 0.96)) 0.06) as [Hlt | Hge];
    split_abs; lra.
Qed.

(** X4.  Once the velocity is in [0, 0.06) and nothing is dragged or
    tracked, every later idle frame finds it strictly between 0 and the
    idle-drift speed: the scene keeps turning in the same direction and
    never reaches the idle-drift speed again by itself. *)
Theorem idle_drift_keeps_direction (f : Scene.Frame)
    (fs : list Scene.Frame) (s : Scene.State) :
  Scene.idle f -> Forall Scene.idle fs ->
  Scene.isDraggingScene s = false ->
  0 <= Scene.angularVelocity s < Scene.idleSpeed ->
  0 < Scene.angularVelocity (Scene.run (f :: fs) s) < Scene.idleSpeed.
Proof.
  intros Hf Hfs Hs Hv. simpl.
  pose proof (idle_keeps_drift f s Hf Hs Hv) as H1.
  assert (Scene.isDraggingScene (Scene.useFrame f s) = false) as Hs1
    by now rewrite useFrame_isDraggingScene.
  revert H1 Hs1. generalize (Scene.useFrame f s). clear Hv Hs Hf s.
  induction fs as [| g gs IH]; intros s Hv Hs; simpl; auto.
  inversion Hfs as [| g' gs' Hg Hrest]; subst g' gs'.
  apply IH; auto.
  - apply idle_keeps_drift; auto. lra.
  - now rewrite useFrame_isDraggingScene.
Qed.

Lemma idle_drift_keeps_direction_witness :
  let f := Scene.mkFrame TREE_SHAPE false false 0.5 (1 / 60) true in
  let released :=
    ScenePointer.run [ScenePointer.Down false 0; ScenePointer.Up]
                     Scene.initial in
  0 < Scene.angularVelocity (Scene.run [f; f; f] released) < Scene.idleSpeed.
Proof.
  intros f released.
  apply (idle_drift_keeps_direction f [f; f]).
  - repeat split.
  - repeat constructor.
  - reflexivity.
  - simpl. unfold Scene.idleSpeed. lra.
Defined.

(** ** The foliage shader: easing, explosion, colour, size, fragments *)

Lemma hermite_range (c : R) : 0 <= c <= 1 -> 0 <= c * c * (3 - 2 * c) <= 1.
Proof.
  intros Hc.
  assert (0 <= c * c * (3 - 2 * c)) by (apply Rmult_le_pos; nra).
  assert (0 <= (1 - c) * (1 - c) * (1 + 2 * c)) by (apply Rmult_le_pos; nra).
  lra.
Qed.

Lemma hermite_pos (c : R) : 0 < c <= 1 -> 0 < c * c * (3 - 2 * c).
Proof. intros Hc. apply Rmult_lt_0_compat; nra. Qed.

Lemma clamp_pos (x : R) : 0 < x -> 0 < GLSL.clamp x 0 1 <= 1.
Proof.
  intros Hx. unfold GLSL.clamp, Rmin, Rmax.
  destruct (Rle_dec x 0); destruct (Rle_dec _ 1); lra.
Qed.

Lemma glsl_smoothstep_range (e0 e1 x : R) :
  0 <= GLSL.smoothstep e0 e1 x <= 1.
Proof. unfold GLSL.smoothstep. apply hermite_range, clamp_range. Qed.

Lemma blend_low (p : R) : p <= 0 -> Foliage.blend p = 0.
Proof.
  intros Hp. unfold Foliage.blend, GLSL.smoothstep.
  replace ((p - 0.0) / (1.0 - 0.0)) with p by lra.
  rewrite clamp_below by assumption. ring.
Qed.

Lemma blend_high (p : R) : 1 <= p -> Foliage.blend p = 1.
Proof.
  intros Hp. unfold Foliage.blend, GLSL.smoothstep.
  replace ((p - 0.0) / (1.0 - 0.0)) with p by lra.
  rewrite clamp_above by assumption. ring.
Qed.

(** X5.  The ornaments and the foliage shader ease the progress with the
    same function: [THREE.MathUtils.smoothstep(p, 0, 1)] and the GLSL
    [smoothstep(0.0, 1.0, p)] agree on every [p]; the value is 0 up to
    [p = 0], 1 from [p = 1] on, and within [0,1] in between. *)
Theorem ornaments_share_foliage_easing (p : R) :
  MathUtils.smoothstep p 0 1 = Foliage.blend p
  /\ 0 <= Foliage.blend p <= 1
  /\ (p <= 0 -> Foliage.blend p = 0)
  /\ (1 <= p -> Foliage.blend p = 1).
Proof.
  split; [| split; [apply blend_range | split; [apply blend_low | apply blend_high]]].
  unfold MathUtils.smoothstep.
  destruct (Rle_dec p 0) as [Hlo | Hlo]; [now rewrite blend_low |].
  destruct (Rle_dec 1 p) as [Hhi | Hhi]; [now rewrite blend_high |].
  rewrite blend_inside by lra.
  replace ((p - 0) / (1 - 0)) with p by lra. reflexivity.
Qed.

Lemma ornaments_share_foliage_easing_witness : Foliage.blend 2 = 1.
Proof. apply (ornaments_share_foliage_easing 2). lra. Defined.

(** X6.  The explosion impulse is never negative and never above 1200;
    it is zero at blend factor 0 and from blend factor 0.8 on, and
    strictly positive strictly between. *)
Theorem explosion_profile (t : R) :
  0 <= Foliage.explosion t <= 1200
  /\ (t <= 0 -> Foliage.explosion t = 0)
  /\ (0.8 <= t -> Foliage.explosion t = 0)
  /\ (0 < t < 0.8 -> 0 < Foliage.explosion t).
Proof.
  unfold Foliage.explosion.
  pose proof (glsl_smoothstep_range 0.8 0.0 t) as H1.
  pose proof (glsl_smoothstep_range 0.0 0.5 t) as H2.
  repeat split.
  - apply Rmult_le_pos; [apply Rmult_le_pos |]; lra.
  - assert (GLSL.smoothstep 0.8 0.0 t * GLSL.smoothstep 0.0 0.5 t <= 1) by nra.
    lra.
  - intros Ht. unfold GLSL.smoothstep at 2.
    replace ((t - 0.0) / (0.5 - 0.0)) with (2 * t) by lra.
    rewrite clamp_below by lra. ring.
  - intros Ht. unfold GLSL.smoothstep at 1.
    replace ((t - 0.8) / (0.0 - 0.8)) with (1 - 1.25 * t) by lra.
    rewrite clamp_below by lra. ring.
  - intros Ht. unfold GLSL.smoothstep.
    replace ((t - 0.8) / (0.0 - 0.8)) with (1 - 1.25 * t) by lra.
    replace ((t - 0.0) / (0.5 - 0.0)) with (2 * t) by lra.
    pose proof (clamp_pos (1 - 1.25 * t)) as Hc1.
    pose proof (clamp_pos (2 * t)) as Hc2.
    apply Rmult_lt_0_compat; [| lra].
    apply Rmult_lt_0_compat; apply hermite_pos; [apply Hc1 | apply Hc2]; lra.
Qed.

Lemma explosion_profile_witness : 0 < Foliage.explosion 0.4.
Proof. apply (explosion_profile 0.4). lra. Defined.

(** X7.  The colour index the component stores for an axis selects, in
    the shader, cyan for axis 0, gold for axis 1 and pink otherwise; the
    twinkle moves each channel of the colour by at most 0.15. *)
Theorem foliage_colour_by_axis (axis : nat) (uTime aPhase : R) :
  FoliageLook.baseColor (FoliageLook.colorIndex axis)
  = match axis with
    | 0%nat => FoliageLook.colCyan
    | 1%nat => FoliageLook.colGold
    | _ => FoliageLook.colPink
    end
  /\ (let c := FoliageLook.vColor uTime aPhase (FoliageLook.colorIndex axis) in
      let b := FoliageLook.baseColor (FoliageLook.colorIndex axis) in
      Rabs (vx c - vx b) <= 0.15 /\ Rabs (vy c - vy b) <= 0.15
      /\ Rabs (vz c - vz b) <= 0.15).
Proof.
  split.
  - unfold FoliageLook.baseColor, FoliageLook.colorIndex.
    destruct axis as [| [| n]];
      repeat (destruct (Rgt_dec _ _)); try reflexivity; lra.
  - cbv zeta. unfold FoliageLook.vColor, FoliageLook.twinkle. simpl.
    pose proof (SIN_bound (uTime * 4.0 + aPhase * 10.0)) as Hs.
    set (b := FoliageLook.baseColor _).
    repeat split; split_abs; lra.
Qed.

Lemma blend_zero : Foliage.blend 0 = 0.
Proof. apply blend_low. lra. Qed.

(** X8.  For one evaluation of the shader, with the view-space depth
    [mvPosition.z < 0] that the particle has at that progress: a size
    attribute from a random draw in [0,1) lies in [5,12); the point size
    is positive and lies between 2340 and 3744 times the attribute
    divided by the distance [- mvPosition.z] (the multiplier runs from
    1.0 to 1.6); it is the lower value from progress 1 on and the upper
    value up to progress 0. *)
Theorem foliage_point_size (random uProgress mvz : R) :
  0 <= random < 1 -> mvz < 0 ->
  let a := FoliageLook.particleSize random in
  let size := FoliageLook.pointSize a uProgress mvz in
  5 <= a < 12
  /\ 0 < size
  /\ 2340 * a / - mvz <= size <= 3744 * a / - mvz
  /\ (1 <= uProgress -> size = 2340 * a / - mvz)
  /\ (uProgress <= 0 -> size = 3744 * a / - mvz).
Proof.
  intros Hr Hz a size.
  assert (5 <= a < 12) as Ha by (unfold a, FoliageLook.particleSize; lra).
  unfold size, FoliageLook.pointSize, FoliageLook.sizeMultiplier, GLSL.mix.
  pose proof (blend_range uProgress) as Hb.
  assert (0 < / - mvz) as Hd by (apply Rinv_0_lt_compat; lra).
  unfold Rdiv. set (d := / - mvz) in *.
  assert (0 < a * d) as Had by (apply Rmult_lt_0_compat; lra).
  split; [exact Ha |].
  split; [| split; [| split]].
  - set (b := Foliage.blend uProgress) in *.
    assert (0 <= a * d * b) by (apply Rmult_le_pos; lra).
    assert (0 <= a * d * (1 - b)) by (apply Rmult_le_pos; lra).
    nra.
  - set (b := Foliage.blend uProgress) in *.
    assert (0 <= a * d * b) by (apply Rmult_le_pos; lra).
    assert (0 <= a * d * (1 - b)) by (apply Rmult_le_pos; lra).
    split; nra.
  - intros Hp. rewrite blend_high by assumption. nra.
  - intros Hp. rewrite blend_low by assumption. nra.
Qed.

Lemma foliage_point_size_witness :
  0 < FoliageLook.pointSize (FoliageLook.particleSize 0.5) 0.5 (-3200).
Proof.
  apply (foliage_point_size 0.5 0.5 (-3200)); lra.
Defined.

(** X9.  The fragment shader discards exactly the fragments farther than
    0.5 from the centre of the point; within 0.2 of the centre the alpha
    is the particle's alpha, and elsewhere on the disc it is between 0
    and the particle's alpha. *)
Theorem foliage_fragment_alpha (px py vAlpha : R) :
  0 <= vAlpha ->
  let dist := sqrt ((px - 0.5) * (px - 0.5) + (py - 0.5) * (py - 0.5)) in
  (0.5 < dist -> FoliageLook.fragmentAlpha px py vAlpha = None)
  /\ (dist <= 0.2 -> FoliageLook.fragmentAlpha px py vAlpha = Some vAlpha)
  /\ (dist <= 0.5 ->
      exists a, FoliageLook.fragmentAlpha px py vAlpha = Some a
                /\ 0 <= a <= vAlpha).
Proof.
  intros Hv dist. unfold FoliageLook.fragmentAlpha. fold dist.
  repeat split.
  - intros Hd. destruct (Rgt_dec dist 0.5); [reflexivity | lra].
  - intros Hd. destruct (Rgt_dec dist 0.5); [lra |].
    unfold GLSL.smoothstep.
    replace ((dist - 0.2) / (0.5 - 0.2)) with ((dist - 0.2) * (10 / 3)) by lra.
    rewrite clamp_below by lra. f_equal. lra.
  - intros Hd. destruct (Rgt_dec dist 0.5); [lra |].
    eexists. split; [reflexivity |].
    pose proof (glsl_smoothstep_range 0.2 0.5 dist). nra.
Qed.

Lemma foliage_fragment_alpha_witness :
  FoliageLook.fragmentAlpha 0.5 0.5 1 = Some 1.
Proof.
  apply (foliage_fragment_alpha 0.5 0.5 1); [lra |].
  replace ((0.5 - 0.5) * (0.5 - 0.5) + (0.5 - 0.5) * (0.5 - 0.5)) with 0 by lra.
  rewrite sqrt_0. lra.
Defined.

Lemma foliage_frames_error (elapsed : list R) (progress : R) : forall u,
  Foliage.uProgress (FoliageLook.frames elapsed progress u) - progress
  = 0.9 ^ length elapsed * (Foliage.uProgress u - progress).
Proof.
  induction elapsed as [| t rest IH]; intros u; simpl.
  - lra.
  - rewrite IH. simpl. rewrite lerp_error. lra.
Qed.

(** X10.  With one value of the [progress] prop, every mounted frame
    shrinks the gap between the uniform [uProgress] and the prop to 0.9
    of what it was, whatever the frame times: after [n] frames the gap is
    [0.9^n] times the initial one.  A uniform and a prop within [0,1]
    keep the uniform within [0,1]. *)
Theorem foliage_progress_follows_prop (elapsed : list R) (progress : R)
    (u : Foliage.Uniforms) :
  let u' := FoliageLook.frames elapsed progress u in
  Foliage.uProgress u' - progress
  = 0.9 ^ length elapsed * (Foliage.uProgress u - progress)
  /\ (0 <= progress <= 1 -> 0 <= Foliage.uProgress u <= 1 ->
      0 <= Foliage.uProgress u' <= 1).
Proof.
  intros u'. pose proof (foliage_frames_error elapsed progress u) as He.
  fold u' in He. split; [exact He |].
  intros Hp Hu.
  assert (0 <= 0.9 ^ length elapsed <= 1) as Hq.
  { split; [apply pow_le; lra |].
    rewrite <- (pow1 (length elapsed)). apply pow_incr. lra. }
  set (q := 0.9 ^ length elapsed) in *. nra.
Qed.

Lemma foliage_progress_follows_prop_witness :
  0 <= Foliage.uProgress
         (FoliageLook.frames [0; 0.016; 0.033] 1 Foliage.initialUniforms) <= 1.
Proof.
  apply (foliage_progress_follows_prop [0; 0.016; 0.033] 1
           Foliage.initialUniforms); simpl; lra.
Defined.

(** ** The gesture manager: similar hands, short hands, the capture *)

Lemma getDistance_similar (k dx dy : R) (p q : Gesture.Landmark) :
  0 <= k ->
  Gesture.getDistance (GestureEffect.similar k dx dy p)
                      (GestureEffect.similar k dx dy q)
  = k * Gesture.getDistance p q.
Proof.
  intros Hk. unfold Gesture.getDistance, GestureEffect.similar; simpl.
  set (a := Gesture.lx p - Gesture.lx q).
  set (b := Gesture.ly p - Gesture.ly q).
  replace ((k * Gesture.lx p + dx - (k * Gesture.lx q + dx))
           * ((k * Gesture.lx p + dx - (k * Gesture.lx q + dx)) * 1)
           + (k * Gesture.ly p + dy - (k * Gesture.ly q + dy))
             * ((k * Gesture.ly p + dy - (k * Gesture.ly q + dy)) * 1))
    with (Rsqr k * (a * (a * 1) + b * (b * 1)))
    by (unfold Rsqr, a, b; ring).
  rewrite sqrt_mult; [| apply Rle_0_sqr | nra].
  now rewrite sqrt_Rsqr.
Qed.

Lemma countTip_similar (k dx dy : R) (landmarks : list Gesture.Landmark)
    (wrist : Gesture.Landmark) (r : R) (acc : option nat) (i : nat) :
  0 < k ->
  Gesture.countTip (map (GestureEffect.similar k dx dy) landmarks)
                   (GestureEffect.similar k dx dy wrist) (k * r) acc i
  = Gesture.countTip landmarks wrist r acc i.
Proof.
  intros Hk. unfold Gesture.countTip. rewrite nth_error_map.
  destruct acc as [n |]; [| reflexivity].
  destruct (nth_error landmarks i) as [tip |]; cbn [option_map];
    [| reflexivity].
  rewrite getDistance_similar by lra.
  set (d := Gesture.getDistance tip wrist).
  destruct (Rgt_dec (k * d) (k * r * 1.7)), (Rgt_dec d (r * 1.7));
    try reflexivity; exfalso; nra.
Qed.

(** X11.  The finger count does not depend on where the hand is in the
    image nor on how large it appears: moving all landmarks by one
    offset and scaling them by one positive factor leaves the count (or
    the failure on a missing landmark) as it was. *)
Theorem finger_count_ignores_position_and_size (k dx dy : R)
    (landmarks : list Gesture.Landmark) (wrist : Gesture.Landmark) :
  0 < k ->
  Gesture.extendedFingers (map (GestureEffect.similar k dx dy) landmarks)
                          (GestureEffect.similar k dx dy wrist)
  = Gesture.extendedFingers landmarks wrist.
Proof.
  intros Hk. unfold Gesture.extendedFingers. rewrite !nth_error_map.
  destruct (nth_error landmarks 9) as [palm |]; cbn [option_map];
    [| reflexivity].
  rewrite getDistance_similar by lra.
  set (r := Gesture.getDistance wrist palm).
  unfold Gesture.tips. cbn [fold_left].
  rewrite !countTip_similar by assumption.
  destruct (Gesture.countTip _ _ _ _ 20) as [n |]; [| reflexivity].
  destruct (nth_error landmarks 4) as [thumb |]; cbn [option_map];
    [| reflexivity].
  rewrite getDistance_similar by lra.
  set (d := Gesture.getDistance thumb wrist).
  destruct (Rgt_dec (k * d) (k * r * 1.3)), (Rgt_dec d (r * 1.3));
    try reflexivity; exfalso; nra.
Qed.

Lemma finger_count_ignores_position_and_size_witness :
  Gesture.extendedFingers
    (map (GestureEffect.similar 2 0.25 0.5) Gesture.openHand)
    (GestureEffect.similar 2 0.25 0.5 (Gesture.mkLandmark 0.5 0 0))
  = Some 5%nat.
Proof.
  rewrite finger_count_ignores_position_and_size by lra.
  apply openHand_count.
Defined.

Lemma extendedFingers_short (landmarks : list Gesture.Landmark)
    (wrist : Gesture.Landmark) :
  nth_error landmarks 20 = None ->
  Gesture.extendedFingers landmarks wrist = None.
Proof.
  intros H20. unfold Gesture.extendedFingers.
  destruct (nth_error landmarks 9); [| reflexivity].
  unfold Gesture.tips. cbn [fold_left].
  unfold Gesture.countTip at 1. rewrite H20.
  destruct (Gesture.countTip _ _ _ _ 16); reflexivity.
Qed.

(** X12.  A first hand with fewer than 21 landmarks makes [onResults]
    throw: nothing is emitted, yet the hand has already been marked
    active, and the published x is the wrist's if there is a wrist and
    the old one otherwise. *)
Theorem short_hand_throws (landmarks : list Gesture.Landmark)
    (rest : list (list Gesture.Landmark)) (refs : Gesture.Refs) :
  (length landmarks < 21)%nat ->
  Gesture.onResults (Gesture.mkResults (Some (landmarks :: rest))) refs
  = Gesture.Threw
      (Gesture.mkRefs true
         (match landmarks with
          | [] => Gesture.handXRef refs
          | wrist :: _ => Gesture.lx wrist
          end)).
Proof.
  intros Hlen.
  assert (nth_error landmarks 20 = None) as H20
    by (apply nth_error_None; lia).
  unfold Gesture.onResults. simpl Gesture.multiHandLandmarks.
  destruct landmarks as [| wrist others]; [reflexivity |].
  cbn [nth_error]. now rewrite extendedFingers_short.
Qed.

Lemma short_hand_throws_witness :
  Gesture.onResults
    (Gesture.mkResults (Some [[Gesture.mkLandmark 0.25 0.5 0]]))
    (Gesture.mkRefs false 0.5)
  = Gesture.Threw (Gesture.mkRefs true 0.25).
Proof.
  apply (short_hand_throws [Gesture.mkLandmark 0.25 0.5 0] []).
  simpl. lia.
Defined.






(** ** The ornament: drag plane, target, opacity, drag flag *)

Lemma vnormalize_zero : vnormalize vzero = vzero.
Proof.
  unfold vnormalize, vlength, vzero; simpl.
  replace (0 * 0 + 0 * 0 + 0 * 0) with 0 by ring. rewrite sqrt_0.
  destruct (Req_dec_T 0 0) as [_ | Hn]; [| contradiction].
  unfold vscale; simpl. f_equal; ring.
Qed.

Lemma vnormalize_unit (v : vec3) :
  v <> vzero ->
  vnormalize v = vscale v (/ vlength v) /\ vlength (vnormalize v) = 1.
Proof.
  intros Hv. pose proof (vlength_pos v Hv) as Hl.
  unfold vnormalize.
  destruct (Req_dec_T (vlength v) 0) as [Hz | _]; [lra |].
  split; [reflexivity |].
  rewrite vlength_vscale, Rabs_pos_eq.
  - apply Rinv_l. lra.
  - apply Rlt_le, Rinv_0_lt_compat, Hl.
Qed.

Lemma vsub_nonzero (a b : vec3) : a <> b -> vsub a b <> vzero.
Proof.
  intros Hab Hz. apply Hab.
  apply vec3_eq;
    [apply (f_equal vx) in Hz | apply (f_equal vy) in Hz
     | apply (f_equal vz) in Hz]; simpl in Hz; lra.
Qed.

Lemma three_smoothstep_range (p : R) :
  0 <= MathUtils.smoothstep p 0 1 <= 1
  /\ (1 <= p -> MathUtils.smoothstep p 0 1 = 1).
Proof.
  unfold MathUtils.smoothstep.
  destruct (Rle_dec p 0) as [Hlo | Hlo]; [split; lra |].
  destruct (Rle_dec 1 p) as [Hhi | Hhi]; [split; lra |].
  split; [| lra].
  replace ((p - 0) / (1 - 0)) with p by lra.
  apply hermite_range. lra.
Qed.

Section OrnamentProperties.
Context `{ThreeJS}.
Import PhotoOrnaments.

(** X14.  Pointer-down on a mounted ornament sets a drag plane that
    passes through the ornament's world position.  When the camera is
    not at that position the normal is the unit vector from the ornament
    to the camera; when it is, the normal is the zero vector. *)
Theorem drag_plane_through_ornament (w : World) (clientX clientY : R)
    (s : Item) (m : Mesh) :
  mesh s = Some m ->
  let worldPos := getWorldPosition w m in
  let plane := dragPlane (drag (handlePointerDown w clientX clientY s)) in
  vdot (normal plane) worldPos + constant plane = 0
  /\ (cameraPosition w <> worldPos ->
      vlength (normal plane) = 1
      /\ normal plane
         = vscale (vsub (cameraPosition w) worldPos)
                  (/ vdistance (cameraPosition w) worldPos))
  /\ (cameraPosition w = worldPos -> normal plane = vzero).
Proof.
  intros Hm worldPos plane.
  destruct (pointerDown_held w clientX clientY s m Hm) as (_ & _ & _ & _ & Hpl).
  unfold plane. rewrite Hpl. fold worldPos.
  unfold setFromNormalAndCoplanarPoint. simpl.
  split; [unfold vdot; ring |]. split.
  - intros Hne.
    destruct (vnormalize_unit _ (vsub_nonzero _ _ Hne)) as [Heq Hlen].
    split; [exact Hlen | exact Heq].
  - intros ->.
    replace (vsub worldPos worldPos) with vzero
      by (apply vec3_eq; simpl; ring).
    apply vnormalize_zero.
Qed.

(** X15.  From progress 1 on, the target of an ornament that is being
    dragged is exactly its stored tree position; when it is not dragged
    the target floats around the tree position by at most 7.5 along x and
    15 along y, and not at all along z. *)
Theorem target_at_full_progress (t progress : R) (d : DualPosition) :
  1 <= progress ->
  targetPos t progress true d = tree d
  /\ (let q := targetPos t progress false d in
      Rabs (vx q - vx (tree d)) <= 7.5
      /\ Rabs (vy q - vy (tree d)) <= 15
      /\ vz q = vz (tree d)).
Proof.
  intros Hp.
  destruct (three_smoothstep_range progress) as [_ Hone].
  specialize (Hone Hp).
  unfold targetPos. rewrite Hone. unfold MathUtils.lerp.
  pose proof (SIN_bound (t * 0.8 + phaseOffset d)) as Hs.
  pose proof (COS_bound (t * 0.5 + phaseOffset d)) as Hc.
  split.
  - apply vec3_eq; simpl; lra.
  - simpl. repeat split; try lra; split_abs; lra.
Qed.

Lemma target_at_full_progress_witness :
  targetPos 2 1 true (data sampleItem) = Vec3 10 0 0.
Proof.
  apply (target_at_full_progress 2 1 (data sampleItem)). lra.
Defined.

Lemma step_keeps_opacity (e : Event) (s : Item) :
  0.7 <= DragFlag.opacityOf s <= 1.3 ->
  0.7 <= DragFlag.opacityOf (step e s) <= 1.3.
Proof.
  intros Ho. destruct e; simpl.
  - unfold handlePointerDown. unfold DragFlag.opacityOf in *.
    destruct (mesh s) eqn:Em; [| now rewrite Em].
    destruct (intersectPlane _ _); simpl; exact Ho.
  - unfold handlePointerMove.
    destruct (isDragging s); simpl; [| exact Ho].
    unfold DragFlag.opacityOf in *.
    destruct (mesh s) eqn:Em; [| now rewrite Em].
    destruct (parent w); [| now rewrite Em].
    destruct (intersectPlane _ _); simpl; [| rewrite Em]; exact Ho.
  - unfold handlePointerUp. destruct (isDragging s); exact Ho.
  - exact Ho.
  - exact Ho.
  - exact Ho.
  - unfold useFrame, DragFlag.opacityOf in *.
    destruct (mesh s) as [m |] eqn:Em; [| now rewrite Em].
    simpl. unfold MathUtils.lerp.
    destruct (three_smoothstep_range progress) as [Hr _].
    set (e := MathUtils.smoothstep progress 0 1) in *.
    destruct (isDragging s); lra.
Qed.

(** X16.  The opacity of an ornament that starts within [0.7, 1.3]
    stays within [0.7, 1.3] through every history of pointer events,
    double-clicks and frames. *)
Theorem ornament_opacity_bounded (es : list Event) (s : Item) :
  0.7 <= DragFlag.opacityOf s <= 1.3 ->
  0.7 <= DragFlag.opacityOf (run es s) <= 1.3.
Proof.
  revert s. induction es as [| e es IH]; intros s Ho; simpl; auto.
  apply IH. now apply step_keeps_opacity.
Qed.

Lemma skipn_own_length {A : Type} (a l : list A) :
  skipn (length a) (a ++ l) = l.
Proof. induction a as [| x a IH]; simpl; auto. Qed.

Lemma skipn_whole {A : Type} (a : list A) : skipn (length a) a = [].
Proof. induction a as [| x a IH]; simpl; auto. Qed.

(** What one handler does to the flag and to its own [isDragging]:
    either it leaves the flag equal to its new [isDragging], or it
    changes neither. *)
Lemma handler_and_flag (e : Event) (s : Item) (b : bool) :
  let s' := step e s in
  let b' := fold_left DragFlag.applyCall (SharedDrag.callsMade e s) b in
  b' = isDragging s' \/ (b' = b /\ isDragging s' = isDragging s).
Proof.
  unfold SharedDrag.callsMade. destruct e; simpl.
  - unfold handlePointerDown. destruct (mesh s).
    + left. destruct (intersectPlane _ _); simpl;
        rewrite skipn_own_length; reflexivity.
    + right. now rewrite skipn_whole.
  - right. unfold handlePointerMove.
    destruct (isDragging s) eqn:Ed; simpl;
      [| rewrite skipn_whole, Ed; auto].
    destruct (mesh s); [| rewrite skipn_whole, Ed; auto].
    destruct (parent w); [| rewrite skipn_whole, Ed; auto].
    destruct (intersectPlane _ _); simpl; [| rewrite Ed];
      rewrite skipn_whole; auto.
  - unfold handlePointerUp. destruct (isDragging s) eqn:Ed; simpl.
    + left. now rewrite skipn_own_length.
    + right. now rewrite skipn_whole, Ed.
  - right. now rewrite skipn_own_length.
  - right. now rewrite skipn_whole.
  - right. now rewrite skipn_whole.
  - right. unfold useFrame. destruct (mesh s); simpl;
      now rewrite skipn_whole.
Qed.

Lemma replaceAt_same (l : list Item) : forall i s s',
  nth_error l i = Some s -> nth_error (SharedDrag.replaceAt i s' l) i = Some s'.
Proof.
  induction l as [| x l IH]; intros [| i] s s' Hi; simpl in *;
    try discriminate; eauto.
Qed.

Lemma replaceAt_other (l : list Item) : forall i j s',
  i <> j -> nth_error (SharedDrag.replaceAt i s' l) j = nth_error l j.
Proof.
  induction l as [| x l IH]; intros [| i] [| j] s' Hij; simpl;
    try reflexivity; try contradiction.
  apply IH. auto.
Qed.

Lemma replaceAt_length (l : list Item) : forall i s',
  length (SharedDrag.replaceAt i s' l) = length l.
Proof.
  induction l as [| x l IH]; intros [| i] s'; simpl; auto.
Qed.

Lemma deliver_keeps_owner (i : nat) (e : Event) (st : SharedDrag.Shared) :
  SharedDrag.flagHasOwner st -> SharedDrag.flagHasOwner (SharedDrag.deliver i e st).
Proof.
  unfold SharedDrag.flagHasOwner, SharedDrag.deliver. intros Hinv.
  destruct (nth_error (SharedDrag.items st) i) as [s |] eqn:Ei;
    [| exact Hinv].
  simpl. intros Hflag.
  destruct (handler_and_flag e s (SharedDrag.isDraggingPhoto st))
    as [Hnew | [Hsame Hdrag]].
  - exists i, (step e s). split; [now apply (replaceAt_same _ i s) |].
    now rewrite <- Hnew.
  - rewrite Hsame in Hflag. destruct (Hinv Hflag) as (j & sj & Hj & Hdj).
    destruct (Nat.eq_dec i j) as [<- | Hne].
    + exists i, (step e s). split; [now apply (replaceAt_same _ i s) |].
      rewrite Hdrag. congruence.
    + exists j, sj. split; [| assumption].
      now rewrite replaceAt_other.
Qed.

Lemma deliver_lone (i : nat) (e : Event) (s0 : Item) (b : bool) :
  b = isDragging s0 ->
  exists s1,
    SharedDrag.deliver i e (SharedDrag.mkShared [s0] b)
    = SharedDrag.mkShared [s1] (isDragging s1).
Proof.
  intros Hb. unfold SharedDrag.deliver. destruct i as [| i]; simpl.
  - exists (step e s0). f_equal.
    destruct (handler_and_flag e s0 b) as [Hnew | [Hsame Hdrag]].
    + exact Hnew.
    + cbv zeta in Hsame, Hdrag. rewrite Hsame, Hdrag. exact Hb.
  - exists s0. destruct i; simpl; now rewrite Hb.
Qed.

(** X17.  All ornaments set the one drag flag of [App].  Through every
    history of events delivered to the ornaments: the number of
    ornaments does not change; whenever the flag is set, some ornament
    is being dragged, if that held before (the converse fails when two
    ornaments are dragged at once and one is released); and with a
    single ornament whose [isDragging] the flag equalled at the start,
    the flag equals its [isDragging] at the end. *)
Theorem drag_flag_has_owner (l : list (nat * Event))
    (st : SharedDrag.Shared) :
  let st' := SharedDrag.deliveries l st in
  length (SharedDrag.items st') = length (SharedDrag.items st)
  /\ (SharedDrag.flagHasOwner st -> SharedDrag.flagHasOwner st')
  /\ (forall s0, SharedDrag.items st = [s0] ->
      SharedDrag.isDraggingPhoto st = isDragging s0 ->
      exists s1, SharedDrag.items st' = [s1]
                 /\ SharedDrag.isDraggingPhoto st' = isDragging s1).
Proof.
  revert st. induction l as [| [i e] l IH]; intros st; simpl.
  - repeat split; auto. intros s0 Hs0 Hb. eauto.
  - destruct (IH (SharedDrag.deliver i e st)) as (Hlen & Hown & Hlone).
    repeat split.
    + rewrite Hlen. unfold SharedDrag.deliver.
      destruct (nth_error (SharedDrag.items st) i); [| reflexivity].
      simpl. apply replaceAt_length.
    + intros Hinv. apply Hown. now apply deliver_keeps_owner.
    + intros s0 Hs0 Hb. destruct st as [its b]. simpl in Hs0, Hb. subst its.
      destruct (deliver_lone i e s0 b Hb) as [s1 Hs1].
      rewrite Hs1 in Hlone |- *. apply (Hlone s1); reflexivity.
Qed.

End OrnamentProperties.

Section OrnamentSamples.
Import PhotoOrnaments.

Lemma drag_plane_through_ornament_witness :
  let plane := dragPlane (drag (handlePointerDown (H := Sample.three)
                                  (pointerAt 1 2) 0 0 sampleItem)) in
  vdot (normal plane)
       (getWorldPosition (H := Sample.three) (pointerAt 1 2) (mkMesh vzero 1 1))
  + constant plane = 0.
Proof.
  apply (drag_plane_through_ornament (H := Sample.three) (pointerAt 1 2) 0 0
           sampleItem (mkMesh vzero 1 1)).
  reflexivity.
Defined.

Lemma ornament_opacity_bounded_witness :
  0.7 <= DragFlag.opacityOf
           (run (H := Sample.three)
                [PointerDown (pointerAt 1 2) 0 0; Tick 0 1 1.5; PointerUp]
                sampleItem) <= 1.3.
Proof.
  apply (ornament_opacity_bounded (H := Sample.three)).
  unfold DragFlag.opacityOf, sampleItem. cbn [mesh opacity]. lra.
Defined.

Lemma drag_flag_has_owner_witness :
  let st := SharedDrag.mkShared [sampleItem; sampleItem] false in
  SharedDrag.flagHasOwner
    (SharedDrag.deliveries (H := Sample.three)
       [(0%nat, PointerDown (pointerAt 1 2) 0 0);
        (1%nat, PointerDown (pointerAt 4 6) 0 0);
        (0%nat, PointerUp)] st).
Proof.
  intros st.
  apply (drag_flag_has_owner (H := Sample.three)).
  unfold SharedDrag.flagHasOwner. simpl. discriminate.
Defined.

End OrnamentSamples.

(** ** The collection after a deletion and after an upload *)

Section PhotoListMore.
Import PhotoOrnaments.

(** X18.  Once the collection is in step with a list, deleting the
    viewed image from the list and updating removes exactly the
    ornaments of that image and keeps all the others, with their data,
    in their order. *)
Theorem delete_removes_its_ornaments (draws0 draws : nat -> Draw)
    (images : list string) (prev0 : list Photo) (x : string) :
  let next := setPhotoData draws0 images prev0 in
  setPhotoData draws (handleDeletePhoto x images) next
  = filter (fun p => negb (String.eqb (purl p) x)) next.
Proof.
  intros next.
  assert (forall u, In u (map purl next) <-> In u images) as Hsync
    by (intros u; apply setPhotoData_sync).
  unfold setPhotoData at 1.
  rewrite (filter_none _ (handleDeletePhoto x images)).
  - simpl. rewrite app_nil_r. apply filter_ext_in. intros p Hp.
    assert (In (purl p) images) as Him by (apply Hsync; now apply in_map).
    destruct (String.eqb_spec (purl p) x) as [Heq | Hneq]; simpl.
    + apply includes_not_In. unfold handleDeletePhoto. rewrite filter_In.
      intros [_ Hne]. apply negb_true_iff, String.eqb_neq in Hne.
      contradiction.
    + apply includes_In. unfold handleDeletePhoto. apply filter_In.
      split; auto. apply negb_true_iff, String.eqb_neq. exact Hneq.
  - intros u Hu. unfold handleDeletePhoto in Hu.
    apply filter_In in Hu as [Hu _].
    apply negb_false_iff, includes_In, Hsync, Hu.
Qed.

(** X19.  Once the collection is in step with a list, uploading images
    none of which is in the list keeps every ornament as it is and
    appends one new ornament per uploaded image, in the order of the
    upload (an image uploaded twice in the batch gets two). *)
Theorem upload_appends_ornaments (draws0 draws : nat -> Draw)
    (images added : list string) (prev0 : list Photo) :
  (forall u, In u added -> ~ In u images) ->
  let next := setPhotoData draws0 images prev0 in
  setPhotoData draws (handleFileUpload added images) next
  = next ++ newItems draws 0 added.
Proof.
  intros Hnew next.
  assert (forall u, In u (map purl next) <-> In u images) as Hsync
    by (intros u; apply setPhotoData_sync).
  unfold setPhotoData at 1, handleFileUpload.
  rewrite filter_app, (filter_none _ images), (filter_all _ added),
    (filter_all _ next); simpl; auto.
  - intros p Hp. apply includes_In, in_or_app. left.
    apply Hsync. now apply in_map.
  - intros u Hu. apply negb_true_iff, includes_not_In.
    intros Hin. apply (Hnew u Hu). now apply Hsync.
  - intros u Hu. apply negb_false_iff, includes_In, Hsync, Hu.
Qed.

Lemma upload_appends_ornaments_witness :
  let draws := fun _ : nat => mkDraw (Vec3 2200 0 0) (Vec3 0 4500 0) (1 / 2) in
  map purl
      (setPhotoData draws (handleFileUpload ["c.png"; "c.png"] ["a.png"])%string
                    (setPhotoData draws ["a.png"]%string []))
  = ["a.png"; "c.png"; "c.png"]%string.
Proof.
  intros draws.
  rewrite (upload_appends_ornaments draws draws ["a.png"]%string
             ["c.png"; "c.png"]%string []).
  - reflexivity.
  - simpl. intros u [<- | [<- | []]] [Heq | []]; discriminate.
Defined.

End PhotoListMore.

(** ** Reading uploaded files *)

Lemma onload_fold (n : nat) (results : list (option string)) :
  forall st : App.Upload,
  let st' := fold_left (fun st r => App.onload n r st) results st in
  App.newImages st' = App.newImages st ++ App.loaded results
  /\ (App.loaded results = [] -> App.userImages st' = App.userImages st)
  /\ ((length (App.newImages st) + length (App.loaded results) < n)%nat ->
      App.userImages st' = App.userImages st)
  /\ ((length (App.newImages st) < n)%nat ->
      (length (App.newImages st) + length (App.loaded results))%nat = n ->
      App.userImages st'
      = App.userImages st ++ App.newImages st ++ App.loaded results).
Proof.
  induction results as [| r rs IH]; intros st.
  - simpl. rewrite app_nil_r. repeat split; auto; intros; lia.
  - cbn [fold_left]. cbv zeta.
    assert (forall x, String.eqb x EmptyString = false ->
                      App.loaded (Some x :: rs) = x :: App.loaded rs) as Hgood.
    { intros x Ex. unfold App.loaded. simpl. now rewrite Ex. }
    assert (forall x, String.eqb x EmptyString = true ->
                      App.loaded (Some x :: rs) = App.loaded rs) as Hbad.
    { intros x Ex. unfold App.loaded. simpl. now rewrite Ex. }
    destruct r as [x |]; [destruct (String.eqb x EmptyString) eqn:Ex |].
    + rewrite (Hbad x Ex).
      assert (App.onload n (Some x) st = st) as ->
        by (unfold App.onload; now rewrite Ex).
      apply IH.
    + rewrite (Hgood x Ex).
      assert (App.onload n (Some x) st
              = if (length (App.newImages st ++ [x]) =? n)%nat
                then App.mkUpload (App.newImages st ++ [x])
                       (App.userImages st ++ App.newImages st ++ [x])
                else App.mkUpload (App.newImages st ++ [x]) (App.userImages st))
        as -> by (unfold App.onload; now rewrite Ex).
      destruct (Nat.eqb_spec (length (App.newImages st ++ [x])) n) as [He | He];
        cbv beta iota.
      * destruct (IH (App.mkUpload (App.newImages st ++ [x])
                        (App.userImages st ++ App.newImages st ++ [x])))
          as (Hn & Hnone & _ & _).
        simpl in Hn, Hnone. rewrite length_app in He. simpl in He.
        repeat split.
        -- rewrite Hn. now rewrite <- app_assoc.
        -- intros Habs. discriminate.
        -- intros Hlt. simpl in Hlt. lia.
        -- intros Hlt Hsum. simpl in Hsum.
           assert (App.loaded rs = []) as Hrs
             by (destruct (App.loaded rs); [reflexivity | simpl in Hsum; lia]).
           rewrite (Hnone Hrs), Hrs. reflexivity.
      * destruct (IH (App.mkUpload (App.newImages st ++ [x])
                        (App.userImages st)))
          as (Hn & _ & Hless & Hfull).
        simpl in Hn, Hless, Hfull. rewrite length_app in *. simpl in *.
        repeat split.
        -- rewrite Hn. now rewrite <- app_assoc.
        -- intros Habs. discriminate.
        -- intros Hlt. apply Hless. lia.
        -- intros Hlt Hsum. rewrite Hfull by lia.
           now rewrite <- !app_assoc.
    + apply IH.
Qed.

(** X20.  A batch of [n] selected files is added to the images only when
    the [n]-th file has been read: the images then grow by the results in
    the order in which the reads finished.  While fewer than [n] reads
    have delivered a result (for instance because one file could not be
    read) the images are unchanged. *)
Theorem upload_is_all_or_nothing (n : nat) (results : list (option string))
    (images : list string) :
  ((length (App.loaded results) < n)%nat ->
   App.handleFileUpload n results images = images)
  /\ ((0 < n)%nat -> length (App.loaded results) = n ->
      App.handleFileUpload n results images = images ++ App.loaded results).
Proof.
  unfold App.handleFileUpload.
  destruct (onload_fold n results (App.mkUpload [] images))
    as (_ & _ & Hless & Hfull).
  simpl in Hless, Hfull. split.
  - intros Hlt. now apply Hless.
  - intros Hn Hlen. now apply Hfull.
Qed.

Lemma upload_is_all_or_nothing_witness :
  App.handleFileUpload 2 [Some "data:b"; None]%string ["data:a"]%string
  = ["data:a"]%string
  /\ App.handleFileUpload 2 [Some "data:c"; Some "data:b"]%string
                          ["data:a"]%string
     = ["data:a"; "data:c"; "data:b"]%string.
Proof.
  split.
  - apply (upload_is_all_or_nothing 2 [Some "data:b"; None]%string).
    simpl. lia.
  - apply (upload_is_all_or_nothing 2 [Some "data:c"; Some "data:b"]%string);
      simpl; lia.
Defined.

(** ** The dust field: smoothing, reach of the attraction, alpha *)

Lemma vscale_vscale (v : vec3) (a b : R) :
  vscale (vscale v a) b = vscale v (a * b).
Proof. unfold vscale; simpl. f_equal; ring. Qed.

Lemma vlength_zero_vec : vlength vzero = 0.
Proof.
  unfold vlength, vzero; simpl.
  replace (0 * 0 + 0 * 0 + 0 * 0) with 0 by ring. apply sqrt_0.
Qed.

Lemma vlength_pos_nonzero (v : vec3) : 0 < vlength v -> v <> vzero.
Proof. intros Hl ->. rewrite vlength_zero_vec in Hl. lra. Qed.

Section DustSmoothing.
Context `{ThreeJS}.
Import GoldDust.

Lemma smoothing_step (f : Frame) (s : State) :
  meshMounted f = true ->
  mousePos3D (useFrame f s)
  = vlerp (mousePos3D s) (DustLook.target f (constant (mousePlane s))) 0.1
  /\ uMouse (useFrame f s) = mousePos3D (useFrame f s)
  /\ constant (mousePlane (useFrame f s)) = constant (mousePlane s).
Proof.
  intros Hm. rewrite useFrame_mounted by assumption. simpl.
  unfold DustLook.target. auto.
Qed.

(** X21.  While the mesh is mounted and the frames aim at one point [q]
    (the point where the pointer ray meets the plane, or the origin when
    it does not meet it), every frame leaves 0.9 of the offset between
    the smoothed pointer position and [q]: after [n] frames the offset
    is [0.9^n] times the initial one.  The plane constant never
    changes. *)
Theorem pointer_smoothing_is_geometric (q : vec3) (fs : list Frame)
    (s : State) :
  Forall (fun f => meshMounted f = true
                   /\ DustLook.target f (constant (mousePlane s)) = q) fs ->
  let s' := run fs s in
  vsub (mousePos3D s') q = vscale (vsub (mousePos3D s) q) (0.9 ^ length fs)
  /\ constant (mousePlane s') = constant (mousePlane s)
  /\ (fs <> [] -> uMouse s' = mousePos3D s').
Proof.
  revert s. induction fs as [| f fs IH]; intros s Hfs.
  - simpl. repeat split; [| tauto].
    apply vec3_eq; simpl; ring.
  - inversion Hfs as [| f' fs' Hf Hrest]; subst f' fs'.
    destruct Hf as [Hm Hq].
    destruct (smoothing_step f s Hm) as (Hpos & Hmouse & Hc).
    cbn [run length]. cbv zeta.
    destruct (IH (useFrame f s)) as (Ho & Hc' & Hu).
    { rewrite Hc. exact Hrest. }
    cbv zeta in Ho, Hc', Hu.
    rewrite Ho, Hc', Hc, Hpos, Hq, vlerp_error, vscale_vscale.
    repeat split.
    + f_equal. simpl. lra.
    + intros _. destruct fs as [| g gs]; [exact Hmouse |].
      apply Hu. discriminate.
Qed.

End DustSmoothing.

Lemma pointer_smoothing_is_geometric_witness :
  let f := GoldDust.mkFrame (H := Sample.three) true 0 (Vec3 0 0 1)
             (Sample.mkRay (Vec3 3 4 1) (Vec3 0 0 (-1))) in
  vsub (GoldDust.mousePos3D (GoldDust.run (H := Sample.three) [f; f] GoldDust.initial))
       (Vec3 3 4 0)
  = vscale (vsub (Vec3 0 0 0) (Vec3 3 4 0)) (0.9 ^ 2).
Proof.
  intros f.
  apply (pointer_smoothing_is_geometric (H := Sample.three) (Vec3 3 4 0)
           [f; f] GoldDust.initial).
  assert (DustLook.target (H := Sample.three) f 0 = Vec3 3 4 0) as Ht.
  { unfold DustLook.target. simpl GoldDust.cameraPosition.
    rewrite sample_vnormalize_z.
    change (intersectPlane (GoldDust.ray f) (mkPlane (Vec3 0 0 1) 0))
      with (Sample.intersect (Sample.mkRay (Vec3 3 4 1) (Vec3 0 0 (-1)))
                             (mkPlane (Vec3 0 0 1) 0)).
    now rewrite sample_ray_hits. }
  repeat constructor; exact Ht.
Defined.

(** X22.  The attraction moves no particle when [uHover] is at most 0.5
    or the particle is at least 1200 away from [uMouse] after its drift.
    Otherwise, at a distance [d] with [0 < d < 1200], it moves the
    particle by exactly [300 * (1 - d/1200)^2], which is less than 300.
    The drift itself moves a particle by at most 20 along x and 40 along
    y. *)
Theorem dust_attraction_reach (uTime : R) (uMouse : vec3) (uHover : R)
    (position : vec3) (aPhase : R) :
  let pos := GoldDust.drift uTime position aPhase in
  let d := vdistance pos uMouse in
  let p' := GoldDust.dustPos uTime uMouse uHover position aPhase in
  (uHover <= 0.5 \/ GoldDust.attractRadius <= d -> p' = pos)
  /\ (0.5 < uHover -> 0 < d < GoldDust.attractRadius ->
      vdistance p' pos = 300 * (1 - d / 1200) ^ 2
      /\ vdistance p' pos < 300)
  /\ Rabs (vx pos - vx position) <= 20
  /\ Rabs (vy pos - vy position) <= 40
  /\ vz pos = vz position.
Proof.
  intros pos d p'. unfold p', GoldDust.dustPos. fold pos. fold d.
  unfold GoldDust.attractRadius.
  split; [| split].
  - intros [Hh | Hd].
    + destruct (Rlt_dec d 1200.0); [| reflexivity].
      destruct (Rgt_dec uHover 0.5); [lra | reflexivity].
    + destruct (Rlt_dec d 1200.0); [lra | reflexivity].
  - intros Hh Hd.
    destruct (Rlt_dec d 1200.0) as [_ | Hn]; [| lra].
    destruct (Rgt_dec uHover 0.5) as [_ | Hn]; [| lra].
    assert (vsub uMouse pos <> vzero) as Hnz.
    { apply vlength_pos_nonzero. rewrite vlength_vsub_sym. apply Hd. }
    rewrite vdistance_offset, !vlength_vscale, vlength_normalize by assumption.
    set (k := 1.0 - d / 1200.0).
    assert (0 < k < 1) as Hk by (unfold k; lra).
    assert (0 <= k ^ 2 < 1) as Hk2 by (simpl; nra).
    rewrite (Rabs_pos_eq 300.0) by lra.
    rewrite (Rabs_pos_eq (k ^ 2)) by lra.
    replace (1 - d / 1200) with k by (unfold k; lra).
    split; lra.
  - unfold pos, GoldDust.drift. simpl.
    pose proof (COS_bound (uTime * 0.4 * 0.5 + aPhase)).
    pose proof (SIN_bound (uTime * 0.4 + aPhase)).
    repeat split; try lra; split_abs; lra.
Qed.

Lemma dust_attraction_reach_witness :
  GoldDust.dustPos 0 (Vec3 5000 0 0) 0 (Vec3 0 0 0) 0
  = GoldDust.drift 0 (Vec3 0 0 0) 0.
Proof.
  apply (dust_attraction_reach 0 (Vec3 5000 0 0) 0 (Vec3 0 0 0) 0).
  left. lra.
Defined.

(** X23.  The alpha of a dust particle oscillates within [0.2, 0.8].
    The fragment shader discards the fragments farther than 0.5 from the
    centre of the point; on the disc the fragment alpha is between 0 and
    the particle's alpha, equal to it at the centre. *)
Theorem dust_alpha_range (px py uTime aPhase : R) :
  let a := DustLook.vAlpha uTime aPhase in
  let dist := sqrt ((px - 0.5) * (px - 0.5) + (py - 0.5) * (py - 0.5)) in
  0.2 <= a <= 0.8
  /\ (0.5 < dist -> DustLook.fragmentAlpha px py a = None)
  /\ (dist <= 0.5 ->
      exists x, DustLook.fragmentAlpha px py a = Some x /\ 0 <= x <= a)
  /\ (dist = 0 -> DustLook.fragmentAlpha px py a = Some a).
Proof.
  intros a dist.
  assert (0.2 <= a <= 0.8) as Ha.
  { unfold a, DustLook.vAlpha.
    pose proof (SIN_bound (uTime * 1.5 + aPhase)). lra. }
  assert (0 <= dist) as Hd0 by apply sqrt_pos.
  unfold DustLook.fragmentAlpha. fold dist.
  repeat split; try lra.
  - intros Hd. destruct (Rgt_dec dist 0.5); [reflexivity | lra].
  - intros Hd. destruct (Rgt_dec dist 0.5); [lra |].
    eexists. split; [reflexivity |].
    set (k := 1.0 - dist * 2.0).
    assert (0 <= k <= 1) as Hk by (unfold k; lra).
    assert (0 <= k ^ 3 <= 1) as Hk3.
    { simpl. assert (0 <= k * k <= 1) by nra. nra. }
    nra.
  - intros Hd. destruct (Rgt_dec dist 0.5); [lra |].
    rewrite Hd. f_equal. simpl. lra.
Qed.

Lemma dust_alpha_range_witness :
  DustLook.fragmentAlpha 0.5 2 (DustLook.vAlpha 0 0) = None.
Proof.
  apply (dust_alpha_range 0.5 2 0 0).
  replace ((0.5 - 0.5) * (0.5 - 0.5) + (2 - 0.5) * (2 - 0.5))
    with (1.5 * 1.5) by lra.
  rewrite sqrt_square by lra. lra.
Defined.
